(** * bevry/argument: the command line argument classifier and its coercions

    A shallow embedding of [source/index.ts]: the [Argument] class (its
    constructor, [fallback], [string], [number], [boolean], [exit]), the
    [ArgumentError] class and the [trimIndentation] helper, together with the
    ECMAScript built-ins they call.

    Strings are sequences of code units below 256; numbers are IEEE 754
    binary64 values ([spec_float]); integers that index strings are in [Z],
    as [indexOf] answers [-1]. *)

From Stdlib Require Import ZArith List String Ascii Bool Lia.
From Stdlib Require Import SpecFloat.
Import ListNotations.

Local Open Scope string_scope.
Local Open Scope Z_scope.

(** ** ECMAScript built-ins used by the source *)

Module JS.

(** The primitive values that reach the code: a fallback slot is
    [T | null | undefined], and [fallback] answers a slot or a string. *)
Inductive primitive : Type :=
| Undefined
| Null
| Bool (b : bool)
| Num (n : spec_float)
| Str (s : string).

(** [v == null] *)
Definition isNullish (v : primitive) : bool :=
  match v with
  | Undefined | Null => true
  | _ => false
  end.

(** [v === s] for a string [s] *)
Definition strictEqualsString (v : primitive) (s : string) : bool :=
  match v with
  | Str t => String.eqb t s
  | _ => false
  end.

(** [s.length] *)
Definition length (s : string) : Z := Z.of_nat (String.length s).

(** [s.startsWith(p)] *)
Definition startsWith (s p : string) : bool := String.prefix p s.

(** [s.indexOf(pat)]: the position of the first occurrence, or [-1]. *)
Fixpoint firstOccurrence (s pat : string) : option nat :=
  if String.prefix pat s then Some 0%nat
  else match s with
       | EmptyString => None
       | String _ s' => option_map S (firstOccurrence s' pat)
       end.

Definition indexOf (s pat : string) : Z :=
  match firstOccurrence s pat with
  | Some i => Z.of_nat i
  | None => -1
  end.

(** [s.substring(start, end)]: both indices are clamped to [0, s.length]
    and swapped when [start > end]; an omitted [end] is [s.length]. *)
Definition clamp (i len : Z) : Z := Z.max 0 (Z.min i len).

Definition substring (s : string) (start : Z) (end_ : option Z) : string :=
  let len := length s in
  let a := clamp start len in
  let b := match end_ with
           | Some e => clamp e len
           | None => len
           end in
  let from := Z.min a b in
  let to := Z.max a b in
  String.substring (Z.to_nat from) (Z.to_nat (to - from)) s.

(** [list.includes(s)] on an array of strings *)
Definition includes (l : list string) (s : string) : bool :=
  existsb (String.eqb s) l.

(** White space and line terminators ([\s], [trim]) among the code units
    below 256: TAB, LF, VT, FF, CR, SP, NBSP. *)
Definition isWhiteSpace (c : ascii) : bool :=
  match nat_of_ascii c with
  | 9%nat | 10%nat | 11%nat | 12%nat | 13%nat | 32%nat | 160%nat => true
  | _ => false
  end.

Definition LF : ascii := "010"%char.

(** [s.split(sep)] for a separator of one code unit *)
Fixpoint split (s : string) (sep : ascii) : list string :=
  match s with
  | EmptyString => [EmptyString]
  | String c s' =>
      if Ascii.eqb c sep then EmptyString :: split s' sep
      else match split s' sep with
           | [] => [String c EmptyString]
           | l :: ls => String c l :: ls
           end
  end.

(** [lines.join(sep)] *)
Definition join (ls : list string) (sep : string) : string :=
  String.concat sep ls.

(** [s.match(/^\s+/)]: the leading run of white space, [None] ([null])
    when the run is empty. *)
Fixpoint leadingWhiteSpace (s : string) : string :=
  match s with
  | EmptyString => EmptyString
  | String c s' =>
      if isWhiteSpace c then String c (leadingWhiteSpace s') else EmptyString
  end.

Definition matchLeadingWhiteSpace (s : string) : option string :=
  match leadingWhiteSpace s with
  | EmptyString => None
  | w => Some w
  end.

Fixpoint drop (n : nat) (s : string) : string :=
  match n, s with
  | O, _ => s
  | S n', String _ s' => drop n' s'
  | S _, EmptyString => EmptyString
  end.

(** [s.replace(pat, rep)] for a string pattern and a replacement without
    [$]: only the first occurrence is replaced. *)
Fixpoint replace (s pat rep : string) : string :=
  if String.prefix pat s then rep ++ drop (String.length pat) s
  else match s with
       | EmptyString => EmptyString
       | String c s' => String c (replace s' pat rep)
       end.

(** [s.trim()] *)
Fixpoint trimStart (s : string) : string :=
  match s with
  | EmptyString => EmptyString
  | String c s' => if isWhiteSpace c then trimStart s' else s
  end.

Fixpoint trimEnd (s : string) : string :=
  match s with
  | EmptyString => EmptyString
  | String c s' =>
      match trimEnd s' with
      | EmptyString => if isWhiteSpace c then EmptyString else String c EmptyString
      | t => String c t
      end
  end.

Definition trim (s : string) : string := trimEnd (trimStart s).

(** [Error.prototype.toString] for an error named [Error] *)
Definition errorToString (msg : string) : string :=
  if String.eqb msg "" then "Error" else "Error: " ++ msg.

(** Numbers. *)
Definition NaN : spec_float := S754_nan.

(** [isNaN(n)] on a number *)
Definition isNaN (n : spec_float) : bool :=
  match n with
  | S754_nan => true
  | _ => false
  end.

Definition binary64 (m : positive) (e : Z) : spec_float :=
  binary_round 53 1024 false m e.

Section ToNumber.

(** The engine's conversion of a string to a number (StringToNumber). *)
Variable StringToNumber : string -> spec_float.

(** [Number(v)] *)
Definition Number (v : primitive) : spec_float :=
  match v with
  | Undefined => NaN
  | Null => S754_zero false
  | Bool true => binary64 1 0
  | Bool false => S754_zero false
  | Num n => n
  | Str s => StringToNumber s
  end.

End ToNumber.

(** The conversion restricted to unsigned decimal integer literals; any
    other string is taken to [NaN]. An instance of [StringToNumber] on
    that fragment. *)
Definition digit (c : ascii) : option Z :=
  let n := Z.of_nat (nat_of_ascii c) in
  if (48 <=? n) && (n <=? 57) then Some (n - 48) else None.

Fixpoint digits (acc : Z) (s : string) : option Z :=
  match s with
  | EmptyString => Some acc
  | String c s' =>
      match digit c with
      | Some d => digits (10 * acc + d) s'
      | None => None
      end
  end.

Definition decimalIntegerToNumber (s : string) : spec_float :=
  match digits 0 s with
  | Some (Zpos m) => binary64 m 0
  | Some _ => S754_zero false
  | None => NaN
  end.

End JS.

(** ** [trimIndentation] *)

(** [lines[0] || lines[1]]: [None] is [undefined]. *)
Definition firstLine (lines : list string) : option string :=
  match lines with
  | [] => None
  | l0 :: rest =>
      if String.eqb l0 "" then
        match rest with
        | [] => None
        | l1 :: _ => Some l1
        end
      else Some l0
  end.

(** [None] stands for the [TypeError] of calling [match] on [undefined]. *)
Definition trimIndentation (str : string) : option string :=
  let lines := JS.split str JS.LF in
  match firstLine lines with
  | None => None
  | Some firstLine =>
      match JS.matchLeadingWhiteSpace firstLine with
      | Some indentation =>
          Some (JS.join (map (fun line => JS.replace line indentation "") lines)
                        (String JS.LF EmptyString))
      | None => Some str
      end
  end.

(** ** [ArgumentError] *)

(** The fields the class declares, and the message that [Errlop], its base
    class, keeps from the string it is built with. *)
Record ArgumentError : Type := {
  message : string;
  exitCode : Z;
  code : string;
  orphanStack : string
}.

Definition new_ArgumentError (input : string) : ArgumentError :=
  {| message := input; exitCode := 22; code := "EINVAL"; orphanStack := "" |}.

(** A call either returns or throws an [ArgumentError]. *)
Inductive completion (A : Type) : Type :=
| Return (a : A)
| Throw (e : ArgumentError).

Arguments Return {A} a.
Arguments Throw {A} e.

(** ** [FallbackOptions] *)

(** Each property is optional ([None]: absent) and may hold [null]. *)
Record FallbackOptions : Type := {
  enabled : option JS.primitive;
  disabled : option JS.primitive;
  enabledEmpty : option JS.primitive;
  disabledEmpty : option JS.primitive
}.

(** The default [{}]. *)
Definition noOptions : FallbackOptions :=
  {| enabled := None; disabled := None; enabledEmpty := None; disabledEmpty := None |}.

(** Destructuring a property: an absent one reads as [undefined]. *)
Definition property (p : option JS.primitive) : JS.primitive :=
  match p with
  | Some v => v
  | None => JS.Undefined
  end.

(** ** [Argument] *)

Record Argument : Type := {
  arg : string;
  key : string;
  value : option string;
  flag : bool;
  inverted : bool
}.

Definition truthy : list string := ["true"; "1"; "yes"; "y"; "on"].
Definition falsey : list string := ["false"; "0"; "no"; "n"; "off"].

(** The constructor. *)
Definition new_Argument (arg : string) : Argument :=
  if String.eqb arg "--" then
    {| arg := arg; key := "--"; value := None; flag := false; inverted := false |}
  else if JS.startsWith arg "--" then
    let index := JS.indexOf arg "=" in
    let kv :=
      if index =? -1 then (JS.substring arg 2 None, None)
      else (JS.substring arg 2 (Some index),
            Some (JS.substring arg (index + 1) None)) in
    if JS.startsWith (fst kv) "no-" then
      {| arg := arg; key := JS.substring (fst kv) 3 None; value := snd kv;
         flag := true; inverted := true |}
    else
      {| arg := arg; key := fst kv; value := snd kv;
         flag := true; inverted := false |}
  else
    {| arg := arg; key := ""; value := Some arg; flag := false; inverted := false |}.

(** [Argument.error] and the instance method [error]. *)
Definition error {A : Type} (error : string) : completion A :=
  Throw (new_ArgumentError error).

(** [Argument.help] *)
Definition help {A : Type} (help : string) : completion A :=
  Throw (new_ArgumentError help).

(** [unknown] *)
Definition unknown {A : Type} (this : Argument) : completion A :=
  error (if flag this then "Unknown flag: " ++ arg this
         else "Unknown argument " ++ arg this).

(** [fallback] *)
Definition fallback (this : Argument) (message : string)
    (opts : FallbackOptions) : completion JS.primitive :=
  match value this with
  | None =>
      if inverted this then
        if JS.isNullish (property (disabled opts)) then error message
        else Return (property (disabled opts))
      else
        if JS.isNullish (property (enabled opts)) then error message
        else Return (property (enabled opts))
  | Some v =>
      if String.eqb v "" then
        if inverted this then
          if JS.isNullish (property (enabledEmpty opts)) then error message
          else Return (property (enabledEmpty opts))
        else
          if JS.isNullish (property (disabledEmpty opts)) then error message
          else Return (property (disabledEmpty opts))
      else Return (JS.Str v)
  end.

(** [string] *)
Definition string_error (this : Argument) : string :=
  "Argument " ++ arg this ++ " must have a string value, e.g. " ++
  (if flag this then "--" ++ key this ++ "=string" else "<string>").

Definition string_ (this : Argument) (opts : FallbackOptions)
    : completion JS.primitive :=
  fallback this (string_error this) opts.

(** [number] *)
Definition number_error (this : Argument) : string :=
  "Argument " ++ arg this ++ " must have a number value, e.g. " ++
  (if flag this then "--" ++ key this ++ "=123" else "123").

Section Number.

Variable StringToNumber : string -> spec_float.

(** [value == null || value === '' ? NaN : Number(value)] *)
Definition conversion (value : JS.primitive) : spec_float :=
  if JS.isNullish value || JS.strictEqualsString value "" then JS.NaN
  else JS.Number StringToNumber value.

Definition number (this : Argument) (opts : FallbackOptions)
    : completion spec_float :=
  match fallback this (number_error this) opts with
  | Throw e => Throw e
  | Return value =>
      let number := conversion value in
      if JS.isNaN number then error (number_error this)
      else Return number
  end.

End Number.

(** [boolean] *)
Definition boolean_error (this : Argument) : string :=
  "Argument " ++ arg this ++ " must have a boolean value, e.g. " ++
  (if flag this
   then "--" ++ key this ++ " or --no-" ++ key this ++ " or --" ++ key this ++ "=yes"
   else "yes").

Definition boolean (this : Argument) : completion bool :=
  match value this with
  | None => Return (negb (inverted this))
  | Some v =>
      if String.eqb v "" then Return (negb (inverted this))
      else if JS.includes truthy v then
        if inverted this then Return false else Return true
      else if JS.includes falsey v then
        if inverted this then Return true else Return false
      else error (boolean_error this)
  end.

(** ** [Argument.exit] *)

(** What [exit] is handed ([error?: any]): an [ArgumentError], or another
    value seen through what [exit] reads of it, the text of its [toString],
    its [message] and its [exitCode], if any. *)
Inductive thrown : Type :=
| ThrownArgumentError (e : ArgumentError)
| ThrownOther (text message : string) (exitCode : option Z).

Definition thrown_toString (t : thrown) : string :=
  match t with
  | ThrownArgumentError e => JS.errorToString (message e)
  | ThrownOther text _ _ => text
  end.

Definition thrown_exitCode (t : thrown) : option Z :=
  match t with
  | ThrownArgumentError e => Some (exitCode e)
  | ThrownOther _ _ c => c
  end.

Definition thrown_message (t : thrown) : string :=
  match t with
  | ThrownArgumentError e => message e
  | ThrownOther _ m _ => m
  end.

(** How the call ends: the process exits with a code, after the lines
    written to the error stream, or a [TypeError] escapes. *)
Inductive ending : Type :=
| Exit (stderr : list string) (code : Z)
| TypeError (stderr : list string).

Definition exit (help : string) (error : option thrown) : ending :=
  let str := option_map thrown_toString error in
  let truthyString :=
    match str with
    | Some s => negb (String.eqb s "")
    | None => false
    end in
  let is22 :=
    match error with
    | Some e => match thrown_exitCode e with
                | Some c => c =? 22
                | None => false
                end
    | None => false
    end in
  if is22 || negb truthyString then
    match trimIndentation help with
    | None => TypeError []
    | Some trimmed =>
        let out := [JS.trim trimmed] in
        match error, str with
        | Some e, Some s =>
            if truthyString && negb (String.eqb (thrown_message e) help)
            then Exit (out ++ [String JS.LF EmptyString ++ s]) 22
            else Exit out 0
        | _, _ => Exit out 0
        end
    end
  else
    match error, str with
    | Some e, Some s =>
        Exit [s] (match thrown_exitCode e with
                  | Some c => c
                  | None => 1
                  end)
    | _, _ => Exit [] 1
    end.

(** [Argument.catch] *)
Definition catch (help : string) : thrown -> ending :=
  fun error => exit help (Some error).

(** A string contains another one. *)
Definition contains (s sub : string) : Prop :=
  exists pre post, s = pre ++ sub ++ post.

(** A code unit occurs in a string. *)
Fixpoint occurs (c : ascii) (s : string) : bool :=
  match s with
  | EmptyString => false
  | String d s' => Ascii.eqb d c || occurs c s'
  end.

(** The three classifications of a token. *)
Definition isSentinel (a : Argument) : Prop := flag a = false /\ key a = "--".
Definition isPositional (a : Argument) : Prop := flag a = false /\ key a = "".
Definition isFlagToken (a : Argument) : Prop := flag a = true.

(** The record of a flag whose name, before the negation prefix is looked
    at, is [name] and whose value is [v]. *)
Definition flagToken (raw name : string) (v : option string) : Argument :=
  if JS.startsWith name "no-" then
    {| arg := raw; key := JS.drop 3 name; value := v;
       flag := true; inverted := true |}
  else
    {| arg := raw; key := name; value := v;
       flag := true; inverted := false |}.

(** Where a flag's name splits: [firstEquals rest name v] when [rest], the
    token after its two dashes, has no [=] (then [name] is all of it and
    [v] is [None]), or has its first [=] right after [name], with [v] the
    text behind it. *)
Inductive firstEquals : string -> string -> option string -> Prop :=
| NoEquals (rest : string) :
    occurs "=" rest = false -> firstEquals rest rest None
| AtEquals (name v : string) :
    occurs "=" name = false -> firstEquals (name ++ "=" ++ v) name (Some v).

(** The slot of the policy that the token's case selects: by negation when
    the value is [null], crosswise when it is the empty string, and none
    when the token has a value of its own. *)
Definition selectedSlot (a : Argument) (opts : FallbackOptions)
    : option (option JS.primitive) :=
  match value a with
  | None => Some (if inverted a then disabled opts else enabled opts)
  | Some v =>
      if String.eqb v "" then
        Some (if inverted a then enabledEmpty opts else disabledEmpty opts)
      else None
  end.

(** A slot that holds a value answers it; an absent one fails with the
    message. *)
Definition slotElseFail (msg : string) (slot : option JS.primitive)
    : completion JS.primitive :=
  match slot with
  | Some v => if JS.isNullish v then Throw (new_ArgumentError msg) else Return v
  | None => Throw (new_ArgumentError msg)
  end.

(** The policy of the precedence example. *)
Definition policyABCD : FallbackOptions :=
  {| enabled := Some (JS.Str "A"); disabled := Some (JS.Str "B");
     enabledEmpty := Some (JS.Str "C"); disabledEmpty := Some (JS.Str "D") |}.

(** The raw token written back from the key, the value and the two marks
    of a record. *)
Definition render (a : Argument) : string :=
  if flag a then
    "--" ++ (if inverted a then "no-" else "") ++ key a ++
    (match value a with
     | Some v => "=" ++ v
     | None => ""
     end)
  else
    match value a with
    | Some v => v
    | None => key a
    end.

(** The separator of lines. *)
Definition NL : string := String JS.LF EmptyString.

(** A string has no line feed. *)
Definition oneLine (s : string) : Prop := occurs JS.LF s = false.

(** ** The example program *)

(** The program that comes with the package: [help], [Options], [action],
    [parse] and the last line that runs [parse] and hands a rejection to
    [Argument.catch]. The fields of [Options] are prefixed with [o_]. *)
(** [Argument.help], named apart from the [help] text of the program. *)
Definition Argument_help {A : Type} (text : string) : completion A := help text.

Module Demo.

Definition TAB : string := String "009"%char EmptyString.

(** The text of [help]: a template of nineteen lines, the first one empty,
    the others indented by one TAB or empty. *)
Definition help : string :=
  JS.join
    [ "";
      TAB ++ "USAGE:";
      TAB ++ "myprogram [...options]";
      "";
      TAB ++ "OPTIONS:";
      TAB ++ "--help";
      TAB ++ "  output usage information";
      "";
      TAB ++ "--string=<string>";
      TAB ++ "  a string option";
      "";
      TAB ++ "--number=<number>";
      TAB ++ "  a number option";
      "";
      TAB ++ "--[no-]boolean[=<boolean>]";
      TAB ++ "  a boolean option";
      "";
      TAB ++ "--";
      TAB ++ "  Process remaining arguments without any parsing" ]
    (String JS.LF EmptyString).

(** [vargs] is the array [args] itself once it is set, so it is kept as
    what that array holds when the record is looked at. *)
Record Options : Type := {
  o_string : option JS.primitive;
  o_number : option spec_float;
  o_boolean : option bool;
  o_vargs : option (list string)
}.

Definition noneSet : Options :=
  {| o_string := None; o_number := None; o_boolean := None; o_vargs := None |}.

(** [args.shift()] seen from [opts]: a [vargs] that is set is the shifted
    array. *)
Definition shifted (opts : Options) (rest : list string) : Options :=
  match o_vargs opts with
  | Some _ =>
      {| o_string := o_string opts; o_number := o_number opts;
         o_boolean := o_boolean opts; o_vargs := Some rest |}
  | None => opts
  end.

Definition stringOptions : FallbackOptions :=
  {| enabled := Some (JS.Str "when --string, use this value, otherwise throw");
     disabled := Some (JS.Str "when --no-string, use this value, otherwise throw");
     enabledEmpty := Some (JS.Str "when --string=, use this value, otherwise throw");
     disabledEmpty := Some (JS.Str "when --no-string=, use this value, otherwise throw") |}.

Definition numberOptions : FallbackOptions :=
  {| enabled := Some (JS.Num (JS.binary64 1 0));
     disabled := Some (JS.Num (binary_round 53 1024 true 1 0));
     enabledEmpty := Some (JS.Num (S754_zero false));
     disabledEmpty := Some (JS.Num (S754_zero false)) |}.

Section Parse.

Variable StringToNumber : string -> spec_float.

(** The body of the [switch] for one token: the options after it, or the
    error it throws. [rest] is [args] after the [shift]. *)
Definition dispatch (a : Argument) (rest : list string) (opts : Options)
    : completion Options :=
  if String.eqb (key a) "--" then
    match rest with
    | [] => error "when --, provide at least one argument"
    | _ => Return {| o_string := o_string opts; o_number := o_number opts;
                     o_boolean := o_boolean opts; o_vargs := Some rest |}
    end
  else if String.eqb (key a) "help" then
    Argument_help help
  else if String.eqb (key a) "string" then
    match string_ a stringOptions with
    | Return v => Return {| o_string := Some v; o_number := o_number opts;
                            o_boolean := o_boolean opts; o_vargs := o_vargs opts |}
    | Throw e => Throw e
    end
  else if String.eqb (key a) "number" then
    match number StringToNumber a numberOptions with
    | Return n => Return {| o_string := o_string opts; o_number := Some n;
                            o_boolean := o_boolean opts; o_vargs := o_vargs opts |}
    | Throw e => Throw e
    end
  else if String.eqb (key a) "boolean" then
    match boolean a with
    | Return b => Return {| o_string := o_string opts; o_number := o_number opts;
                            o_boolean := Some b; o_vargs := o_vargs opts |}
    | Throw e => Throw e
    end
  else unknown a.

(** The loop of [parse]: what [action] logs, in order, and how the call
    ends. *)
Fixpoint parseFrom (args : list string) (opts : Options)
    : list Options * completion unit :=
  match args with
  | [] => ([], Return tt)
  | raw :: rest =>
      match dispatch (new_Argument raw) rest (shifted opts rest) with
      | Throw e => ([], Throw e)
      | Return opts' =>
          let (log, ending) := parseFrom rest opts' in
          (opts' :: log, ending)
      end
  end.

Definition parse (args : list string) : list Options * completion unit :=
  parseFrom args noneSet.

(** [parse(args).catch(Argument.catch(help))]: the log, and the end of the
    process when [parse] throws. *)
Definition run (args : list string) : list Options * option ending :=
  match parse args with
  | (log, Throw e) => (log, Some (catch help (ThrownArgumentError e)))
  | (log, Return _) => (log, None)
  end.

End Parse.

End Demo.

(** ** The resolver with the guard of [Errlop] and slots of any kind *)

(** [ArgumentError] declares no constructor, so [new ArgumentError(input)]
    runs the one of [Errlop], which throws a plain [Error], with no
    [exitCode] and no [code], when its input is falsy: for a string, when it
    is empty. And a slot is of any type [T]: it may hold a symbol, which
    [Number] refuses with a [TypeError]. [Full] is the resolver with these
    two ways out; [error], [fallback], [string_], [number] and [boolean]
    above are its restriction to messages that are not empty and to slots
    that hold [undefined], [null], a boolean, a number or a string. The
    message of the plain [Error] is [Errlop]'s own and is taken as a
    parameter. *)
Module Full.

Inductive slotValue : Type :=
| Primitive (v : JS.primitive)
| Symbol.

(** What a call throws. *)
Inductive raised : Type :=
| AnArgumentError (e : ArgumentError)
| APlainError (message : string)
| ATypeError.

Inductive outcome (A : Type) : Type :=
| Returns (a : A)
| Raises (r : raised).

Arguments Returns {A} a.
Arguments Raises {A} r.

Record FallbackOptions : Type := {
  enabled : option slotValue;
  disabled : option slotValue;
  enabledEmpty : option slotValue;
  disabledEmpty : option slotValue
}.

Definition noOptions : FallbackOptions :=
  {| enabled := None; disabled := None; enabledEmpty := None; disabledEmpty := None |}.

Definition property (p : option slotValue) : slotValue :=
  match p with
  | Some v => v
  | None => Primitive JS.Undefined
  end.

(** [v == null] *)
Definition isNullish (v : slotValue) : bool :=
  match v with
  | Primitive p => JS.isNullish p
  | Symbol => false
  end.

(** The slot that the token's case selects, as [selectedSlot] above. *)
Definition selectedSlot (a : Argument) (opts : FallbackOptions)
    : option (option slotValue) :=
  match value a with
  | None => Some (if inverted a then disabled opts else enabled opts)
  | Some v =>
      if String.eqb v "" then
        Some (if inverted a then enabledEmpty opts else disabledEmpty opts)
      else None
  end.

Section Guard.

Variable guardMessage : string.

(** [throw new ArgumentError(input)] *)
Definition error {A : Type} (input : string) : outcome A :=
  if String.eqb input "" then Raises (APlainError guardMessage)
  else Raises (AnArgumentError (new_ArgumentError input)).

(** [Argument.help] *)
Definition help {A : Type} (text : string) : outcome A := error text.

(** [fallback] *)
Definition fallback (this : Argument) (message : string)
    (opts : FallbackOptions) : outcome slotValue :=
  match value this with
  | None =>
      if inverted this then
        if isNullish (property (disabled opts)) then error message
        else Returns (property (disabled opts))
      else
        if isNullish (property (enabled opts)) then error message
        else Returns (property (enabled opts))
  | Some v =>
      if String.eqb v "" then
        if inverted this then
          if isNullish (property (enabledEmpty opts)) then error message
          else Returns (property (enabledEmpty opts))
        else
          if isNullish (property (disabledEmpty opts)) then error message
          else Returns (property (disabledEmpty opts))
      else Returns (Primitive (JS.Str v))
  end.

(** [string] *)
Definition string_ (this : Argument) (opts : FallbackOptions)
    : outcome slotValue :=
  fallback this (string_error this) opts.

(** [number]: a symbol is neither [null] nor the empty string, so it
    reaches [Number], which throws. *)
Definition number (StringToNumber : string -> spec_float) (this : Argument)
    (opts : FallbackOptions) : outcome spec_float :=
  match fallback this (number_error this) opts with
  | Raises r => Raises r
  | Returns Symbol => Raises ATypeError
  | Returns (Primitive value) =>
      let number := conversion StringToNumber value in
      if JS.isNaN number then error (number_error this)
      else Returns number
  end.

(** [boolean] *)
Definition boolean (this : Argument) : outcome bool :=
  match value this with
  | None => Returns (negb (inverted this))
  | Some v =>
      if String.eqb v "" then Returns (negb (inverted this))
      else if JS.includes truthy v then
        if inverted this then Returns false else Returns true
      else if JS.includes falsey v then
        if inverted this then Returns true else Returns false
      else error (boolean_error this)
  end.

End Guard.

End Full.

(** The restricted resolver inside the full one. *)
Definition liftOptions (opts : FallbackOptions) : Full.FallbackOptions :=
  {| Full.enabled := option_map Full.Primitive (enabled opts);
     Full.disabled := option_map Full.Primitive (disabled opts);
     Full.enabledEmpty := option_map Full.Primitive (enabledEmpty opts);
     Full.disabledEmpty := option_map Full.Primitive (disabledEmpty opts) |}.

Definition liftCompletion {A B : Type} (f : A -> B) (c : completion A)
    : Full.outcome B :=
  match c with
  | Return a => Full.Returns (f a)
  | Throw e => Full.Raises (Full.AnArgumentError e)
  end.


(** [exit] on every value: one without a callable [toString] makes
    [error?.toString()], the first statement, raise a [TypeError]. *)
Inductive handed : Type :=
| WithToString (t : thrown)
| WithoutToString.

Definition exitOn (help : string) (error : option handed) : ending :=
  match error with
  | Some WithoutToString => TypeError []
  | Some (WithToString t) => exit help (Some t)
  | None => exit help None
  end.

(** ** The string built-ins on concatenations *)

Section StringFacts.

Lemma length_append (a b : string) :
  String.length (a ++ b) = (String.length a + String.length b)%nat.
Proof.
  induction a as [|c a IH]; simpl; [reflexivity | now rewrite IH].
Qed.

Lemma append_empty_r (a : string) : a ++ "" = a.
Proof.
  induction a as [|c a IH]; simpl; [reflexivity | now rewrite IH].
Qed.

Lemma append_assoc (a b c : string) : (a ++ b) ++ c = a ++ b ++ c.
Proof.
  induction a as [|x a IH]; simpl; [reflexivity | now rewrite IH].
Qed.

Lemma prefix_cons (c d : ascii) (p s : string) :
  String.prefix (String c p) (String d s) = Ascii.eqb c d && String.prefix p s.
Proof.
  simpl. destruct (Ascii.ascii_dec c d) as [->|n].
  - now rewrite Ascii.eqb_refl.
  - apply Ascii.eqb_neq in n. now rewrite n.
Qed.

Lemma prefix_append (p r : string) : String.prefix p (p ++ r) = true.
Proof.
  induction p as [|c p IH]; [now destruct r|].
  change (String c p ++ r) with (String c (p ++ r)).
  now rewrite prefix_cons, Ascii.eqb_refl.
Qed.

Lemma prefix_split (p s : string) :
  String.prefix p s = true -> s = p ++ JS.drop (String.length p) s.
Proof.
  revert s; induction p as [|c p IH]; intros s H; simpl.
  - reflexivity.
  - destruct s as [|d s]; simpl in H; [discriminate|].
    destruct (Ascii.ascii_dec c d) as [->|]; [|discriminate].
    simpl. f_equal. now apply IH.
Qed.

Lemma drop_append (a b : string) : JS.drop (String.length a) (a ++ b) = b.
Proof.
  induction a as [|c a IH]; simpl; [now destruct b | exact IH].
Qed.

Lemma drop_all (s : string) (n : nat) :
  (String.length s <= n)%nat -> JS.drop n s = "".
Proof.
  revert n; induction s as [|c s IH]; intros [|n] H; simpl in *;
    try reflexivity; try lia.
  apply IH; lia.
Qed.

Lemma substring_zero_all (s : string) :
  String.substring 0 (String.length s) s = s.
Proof.
  induction s as [|c s IH]; simpl; [reflexivity | now rewrite IH].
Qed.

Lemma substring_drop (s : string) (n : nat) :
  (n <= String.length s)%nat ->
  String.substring n (String.length s - n) s = JS.drop n s.
Proof.
  revert n; induction s as [|c s IH]; intros [|n] H; simpl in *;
    try reflexivity; try lia.
  - now rewrite substring_zero_all.
  - apply IH; lia.
Qed.

Lemma substring_skip (a b : string) (m : nat) :
  String.substring (String.length a) m (a ++ b) = String.substring 0 m b.
Proof.
  induction a as [|c a IH]; simpl; [reflexivity | exact IH].
Qed.

Lemma substring_take (a b : string) :
  String.substring 0 (String.length a) (a ++ b) = a.
Proof.
  induction a as [|c a IH]; simpl; [now destruct b | now rewrite IH].
Qed.

(** [s.substring(n)] drops [n] code units. *)
Lemma substring_from (s : string) (n : Z) :
  0 <= n -> JS.substring s n None = JS.drop (Z.to_nat n) s.
Proof.
  intros Hn. unfold JS.substring, JS.clamp, JS.length.
  destruct (Z_le_gt_dec n (Z.of_nat (String.length s))) as [Hle|Hgt].
  - replace (Z.min (Z.max 0 (Z.min n (Z.of_nat (String.length s))))
                   (Z.of_nat (String.length s))) with n by lia.
    replace (Z.max (Z.max 0 (Z.min n (Z.of_nat (String.length s))))
                   (Z.of_nat (String.length s)))
      with (Z.of_nat (String.length s)) by lia.
    replace (Z.to_nat (Z.of_nat (String.length s) - n))
      with (String.length s - Z.to_nat n)%nat by lia.
    apply substring_drop; lia.
  - replace (Z.min (Z.max 0 (Z.min n (Z.of_nat (String.length s))))
                   (Z.of_nat (String.length s)))
      with (Z.of_nat (String.length s)) by lia.
    replace (Z.max (Z.max 0 (Z.min n (Z.of_nat (String.length s))))
                   (Z.of_nat (String.length s)))
      with (Z.of_nat (String.length s)) by lia.
    rewrite Z.sub_diag, Nat2Z.id. simpl Z.to_nat.
    rewrite (drop_all s (Z.to_nat n)) by lia.
    pose proof (substring_drop s (String.length s) (le_n _)) as E.
    rewrite Nat.sub_diag in E. rewrite E. apply drop_all; lia.
Qed.

(** [s.substring(a, b)] inside the string. *)
Lemma substring_between (s : string) (a b : Z) :
  0 <= a <= b -> b <= JS.length s ->
  JS.substring s a (Some b) = String.substring (Z.to_nat a) (Z.to_nat (b - a)) s.
Proof.
  intros Hab Hb. unfold JS.substring, JS.clamp. unfold JS.length in *.
  replace (Z.min (Z.max 0 (Z.min a (Z.of_nat (String.length s))))
                 (Z.max 0 (Z.min b (Z.of_nat (String.length s))))) with a by lia.
  replace (Z.max (Z.max 0 (Z.min a (Z.of_nat (String.length s))))
                 (Z.max 0 (Z.min b (Z.of_nat (String.length s))))) with b by lia.
  reflexivity.
Qed.

(** The first [=] of a string. *)
Lemma firstOccurrence_cons (c : ascii) (s : string) :
  JS.firstOccurrence (String c s) "=" =
  if Ascii.eqb c "=" then Some 0%nat
  else option_map S (JS.firstOccurrence s "=").
Proof.
  change (JS.firstOccurrence (String c s) "=")
    with (if String.prefix "=" (String c s) then Some 0%nat
          else option_map S (JS.firstOccurrence s "=")).
  rewrite prefix_cons, Ascii.eqb_sym.
  destruct (Ascii.eqb c "="); [now destruct s | reflexivity].
Qed.

Lemma firstOccurrence_absent (s : string) :
  occurs "=" s = false -> JS.firstOccurrence s "=" = None.
Proof.
  induction s as [|c s IH]; intros H; [reflexivity|].
  simpl in H. apply orb_false_iff in H as [Hc Hs].
  now rewrite firstOccurrence_cons, Hc, IH.
Qed.

Lemma firstOccurrence_present (k v : string) :
  occurs "=" k = false ->
  JS.firstOccurrence (k ++ "=" ++ v) "=" = Some (String.length k).
Proof.
  induction k as [|c k IH]; intros H.
  - change ("" ++ "=" ++ v) with (String "=" v).
    now rewrite firstOccurrence_cons.
  - simpl in H. apply orb_false_iff in H as [Hc Hs].
    change (String c k ++ "=" ++ v) with (String c (k ++ "=" ++ v)).
    now rewrite firstOccurrence_cons, Hc, IH.
Qed.

Lemma occurs_split (c : ascii) (s : string) :
  occurs c s = true ->
  exists k v, occurs c k = false /\ s = k ++ String c v.
Proof.
  induction s as [|d s IH]; simpl; intros H; [discriminate|].
  destruct (Ascii.eqb d c) eqn:E.
  - apply Ascii.eqb_eq in E as ->. now exists "", s.
  - destruct (IH H) as (k & v & Hk & ->).
    exists (String d k), v. simpl. now rewrite E.
Qed.

End StringFacts.

(** ** The constructor, case by case *)

Section Constructor.

Lemma new_Argument_sentinel :
  new_Argument "--" =
  {| arg := "--"; key := "--"; value := None; flag := false; inverted := false |}.
Proof. reflexivity. Qed.

Lemma new_Argument_positional (raw : string) :
  JS.startsWith raw "--" = false ->
  new_Argument raw =
  {| arg := raw; key := ""; value := Some raw; flag := false; inverted := false |}.
Proof.
  intros H. unfold new_Argument. rewrite H.
  destruct (String.eqb_spec raw "--") as [->|_]; [discriminate H | reflexivity].
Qed.

Lemma flag_not_sentinel (rest : string) :
  rest <> "" -> String.eqb ("--" ++ rest) "--" = false.
Proof.
  intros H. apply String.eqb_neq. intros E.
  apply H. destruct rest; [reflexivity | discriminate E].
Qed.

Lemma new_Argument_bare (rest : string) :
  rest <> "" -> occurs "=" rest = false ->
  new_Argument ("--" ++ rest) = flagToken ("--" ++ rest) rest None.
Proof.
  intros Hne Hno. unfold new_Argument, flagToken.
  rewrite (flag_not_sentinel rest Hne).
  unfold JS.startsWith at 1. rewrite prefix_append.
  unfold JS.indexOf.
  rewrite (firstOccurrence_absent ("--" ++ rest)) by exact Hno.
  change (-1 =? -1) with true. cbv iota. cbn [fst snd].
  rewrite (substring_from ("--" ++ rest) 2) by lia.
  change (JS.drop (Z.to_nat 2) ("--" ++ rest)) with rest.
  destruct (JS.startsWith rest "no-"); [|reflexivity].
  now rewrite (substring_from rest 3) by lia.
Qed.

Lemma new_Argument_valued (k v : string) :
  occurs "=" k = false ->
  new_Argument ("--" ++ k ++ "=" ++ v) =
  flagToken ("--" ++ k ++ "=" ++ v) k (Some v).
Proof.
  intros Hno. unfold new_Argument, flagToken.
  rewrite flag_not_sentinel by (destruct k; discriminate).
  unfold JS.startsWith at 1. rewrite prefix_append.
  unfold JS.indexOf.
  rewrite <- (append_assoc "--" k ("=" ++ v)).
  rewrite (firstOccurrence_present ("--" ++ k) v) by exact Hno.
  assert (Hlen : Z.of_nat (String.length ("--" ++ k)) = 2 + JS.length k)
    by (unfold JS.length; simpl String.length; lia).
  rewrite Hlen.
  replace (2 + JS.length k =? -1) with false
    by (symmetry; apply Z.eqb_neq; unfold JS.length; lia).
  cbn [fst snd].
  assert (Hk : JS.substring (("--" ++ k) ++ "=" ++ v) 2 (Some (2 + JS.length k)) = k).
  { rewrite substring_between.
    - replace (Z.to_nat (2 + JS.length k - 2)) with (String.length k)
        by (unfold JS.length; lia).
      change (Z.to_nat 2) with (String.length "--").
      rewrite append_assoc, substring_skip. apply substring_take.
    - unfold JS.length; lia.
    - unfold JS.length. rewrite !length_append. simpl String.length. lia. }
  assert (Hv : JS.substring (("--" ++ k) ++ "=" ++ v) (2 + JS.length k + 1) None = v).
  { rewrite substring_from by (unfold JS.length; lia).
    replace (Z.to_nat (2 + JS.length k + 1))
      with (String.length (("--" ++ k) ++ "="))
      by (rewrite !length_append; unfold JS.length; simpl String.length; lia).
    rewrite <- (append_assoc ("--" ++ k) "=" v). apply drop_append. }
  rewrite Hk, Hv.
  destruct (JS.startsWith k "no-"); [|reflexivity].
  now rewrite (substring_from k 3) by lia.
Qed.

(** Every name either has no [=] or splits at its first [=]. *)
Lemma first_equals (rest : string) :
  occurs "=" rest = false \/
  exists k v, occurs "=" k = false /\ rest = k ++ "=" ++ v.
Proof.
  destruct (occurs "=" rest) eqn:E; [right | now left].
  destruct (occurs_split _ _ E) as (k & v & Hk & ->). now exists k, v.
Qed.

Lemma startsWith_flag (raw : string) :
  JS.startsWith raw "--" = true -> raw = "--" ++ JS.drop 2 raw.
Proof. intros H. exact (prefix_split "--" raw H). Qed.

End Constructor.

(** ** Classification *)

Section Classification.

Lemma new_Argument_split (rest name : string) (v : option string) :
  rest <> "" -> firstEquals rest name v ->
  new_Argument ("--" ++ rest) = flagToken ("--" ++ rest) name v.
Proof.
  intros Hne H. destruct H as [rest Hno | name v Hno].
  - now apply new_Argument_bare.
  - now apply new_Argument_valued.
Qed.

Lemma firstEquals_total (rest : string) :
  exists name v, firstEquals rest name v.
Proof.
  destruct (first_equals rest) as [H | (k & v & Hk & ->)].
  - exists rest, None. now constructor.
  - exists k, (Some v). now constructor.
Qed.

Lemma flagToken_flag (raw name : string) (v : option string) :
  flag (flagToken raw name v) = true.
Proof. unfold flagToken. now destruct (JS.startsWith name "no-"). Qed.

Lemma new_Argument_prefixed (raw : string) :
  raw <> "--" -> JS.startsWith raw "--" = true ->
  exists name v, new_Argument raw = flagToken raw name v
                 /\ firstEquals (JS.drop 2 raw) name v.
Proof.
  intros Hne Hp. pose proof (startsWith_flag raw Hp) as E.
  assert (Hrest : JS.drop 2 raw <> "").
  { intros Hd. apply Hne. rewrite E, Hd. reflexivity. }
  destruct (firstEquals_total (JS.drop 2 raw)) as (name & v & Hs).
  exists name, v. split; [|exact Hs].
  rewrite E at 1 2. now apply new_Argument_split.
Qed.

(** C5. A raw string that does not start with the two dashes, the empty
    string included, is classified as a positional argument: not a flag,
    key [""], not inverted, and the raw string itself as value. *)
Theorem positional_classification (raw : string) :
  JS.startsWith raw "--" = false ->
  flag (new_Argument raw) = false /\
  key (new_Argument raw) = "" /\
  inverted (new_Argument raw) = false /\
  value (new_Argument raw) = Some raw.
Proof.
  intros H. rewrite (new_Argument_positional raw H). now repeat split.
Qed.

Lemma positional_classification_witness :
  (JS.startsWith "" "--" = false /\
   flag (new_Argument "") = false /\
   key (new_Argument "") = "" /\
   inverted (new_Argument "") = false /\
   value (new_Argument "") = Some "").
Proof.
  split; [reflexivity | apply (positional_classification ""); reflexivity].
Defined.

(** C4. ["--"] is classified as the sentinel, key ["--"], value [null],
    not a flag and not inverted; it is the only raw string whose record
    has key ["--"] and is not a flag: any other token with key ["--"],
    such as ["----"], is a flag, and a positional token has key [""]. *)
Theorem sentinel_unique :
  new_Argument "--" =
    {| arg := "--"; key := "--"; value := None;
       flag := false; inverted := false |} /\
  (forall raw, key (new_Argument raw) = "--" ->
               flag (new_Argument raw) = false -> raw = "--") /\
  (forall raw, raw <> "--" -> key (new_Argument raw) = "--" ->
               flag (new_Argument raw) = true) /\
  (key (new_Argument "----") = "--" /\ flag (new_Argument "----") = true) /\
  (forall raw, JS.startsWith raw "--" = false -> key (new_Argument raw) = "").
Proof.
  assert (Hflag : forall raw, raw <> "--" -> key (new_Argument raw) = "--" ->
                              flag (new_Argument raw) = true).
  { intros raw Hne Hk. destruct (JS.startsWith raw "--") eqn:Hp.
    - destruct (new_Argument_prefixed raw Hne Hp) as (name & v & -> & _).
      apply flagToken_flag.
    - rewrite (new_Argument_positional raw Hp) in Hk. discriminate Hk. }
  split; [reflexivity|]. split; [|split; [exact Hflag|split]].
  - intros raw Hk Hf. destruct (String.string_dec raw "--") as [E|Hne]; [exact E|].
    rewrite (Hflag raw Hne Hk) in Hf. discriminate Hf.
  - split; reflexivity.
  - intros raw Hp. now rewrite (new_Argument_positional raw Hp).
Qed.

(** C3. A raw string that starts with the two dashes and is not ["--"] is
    a flag. It splits at its first [=] only: without [=] the value is
    [null] and the name is all that follows the dashes, otherwise the name
    is what stands between the dashes and the first [=] and the value is
    all that follows it, possibly empty. A name that starts with ["no-"]
    loses it and the record is inverted; another name is kept and the
    record is not inverted. So ["--string=a=b"] has value ["a=b"],
    ["--flag"] has value [null], ["--flag="] has value [""], and ["--no-"]
    has key [""], is a flag and is inverted. *)
Theorem flag_classification :
  (forall rest, rest <> "" ->
     flag (new_Argument ("--" ++ rest)) = true /\
     forall name v, firstEquals rest name v ->
       value (new_Argument ("--" ++ rest)) = v /\
       (forall k, name = "no-" ++ k ->
          key (new_Argument ("--" ++ rest)) = k /\
          inverted (new_Argument ("--" ++ rest)) = true) /\
       (JS.startsWith name "no-" = false ->
          key (new_Argument ("--" ++ rest)) = name /\
          inverted (new_Argument ("--" ++ rest)) = false)) /\
  (forall rest, exists name v, firstEquals rest name v) /\
  new_Argument "--string=a=b" =
    {| arg := "--string=a=b"; key := "string"; value := Some "a=b";
       flag := true; inverted := false |} /\
  value (new_Argument "--flag") = None /\
  value (new_Argument "--flag=") = Some "" /\
  new_Argument "--no-" =
    {| arg := "--no-"; key := ""; value := None;
       flag := true; inverted := true |}.
Proof.
  split; [|split; [exact firstEquals_total | now repeat split]].
  intros rest Hne. split.
  - destruct (firstEquals_total rest) as (name & v & Hs).
    rewrite (new_Argument_split rest name v Hne Hs). apply flagToken_flag.
  - intros name v Hs. rewrite (new_Argument_split rest name v Hne Hs).
    unfold flagToken. split; [|split].
    + now destruct (JS.startsWith name "no-").
    + intros k ->. unfold JS.startsWith. rewrite prefix_append.
      split; [|reflexivity]. exact (drop_append "no-" k).
    + intros ->. now split.
Qed.

End Classification.

(** ** Fallback resolution *)

Section Resolution.

Lemma slotElseFail_property (msg : string) (slot : option JS.primitive) :
  (if JS.isNullish (property slot) then error msg else Return (property slot))
  = slotElseFail msg slot.
Proof. destruct slot as [v|]; reflexivity. Qed.

Lemma fallback_selected (a : Argument) (msg : string) (opts : FallbackOptions)
    (slot : option JS.primitive) :
  selectedSlot a opts = Some slot -> fallback a msg opts = slotElseFail msg slot.
Proof.
  unfold selectedSlot, fallback. destruct (value a) as [v|].
  - destruct (String.eqb v ""); [|discriminate].
    destruct (inverted a); intros [= <-]; apply slotElseFail_property.
  - destruct (inverted a); intros [= <-]; apply slotElseFail_property.
Qed.

Lemma fallback_own_value (a : Argument) (msg : string) (opts : FallbackOptions) :
  selectedSlot a opts = None ->
  exists s, value a = Some s /\ s <> "" /\ fallback a msg opts = Return (JS.Str s).
Proof.
  unfold selectedSlot, fallback. destruct (value a) as [v|]; [|discriminate].
  destruct (String.eqb_spec v ""); [discriminate|].
  intros _. now exists v.
Qed.

Lemma slotElseFail_throw (msg : string) (slot : option JS.primitive)
    (e : ArgumentError) :
  slotElseFail msg slot = Throw e -> e = new_ArgumentError msg.
Proof.
  destruct slot as [v|]; simpl; [destruct (JS.isNullish v)|]; congruence.
Qed.

Lemma slotElseFail_return (msg : string) (slot : option JS.primitive)
    (v : JS.primitive) :
  slotElseFail msg slot = Return v -> slot = Some v /\ JS.isNullish v = false.
Proof.
  destruct slot as [w|]; simpl; [|discriminate].
  destruct (JS.isNullish w) eqn:E; [discriminate|].
  intros [= <-]. now split.
Qed.

Lemma fallback_throw (a : Argument) (msg : string) (opts : FallbackOptions)
    (e : ArgumentError) :
  fallback a msg opts = Throw e -> e = new_ArgumentError msg.
Proof.
  destruct (selectedSlot a opts) as [slot|] eqn:E.
  - rewrite (fallback_selected a msg opts slot E). apply slotElseFail_throw.
  - destruct (fallback_own_value a msg opts E) as (s & _ & _ & ->). discriminate.
Qed.

Lemma fallback_return_not_nullish (a : Argument) (msg : string)
    (opts : FallbackOptions) (v : JS.primitive) :
  fallback a msg opts = Return v -> JS.isNullish v = false.
Proof.
  destruct (selectedSlot a opts) as [slot|] eqn:E.
  - rewrite (fallback_selected a msg opts slot E). intros H.
    now apply slotElseFail_return in H.
  - destruct (fallback_own_value a msg opts E) as (s & _ & _ & ->).
    now intros [= <-].
Qed.

(** C1. Fallback resolution follows the table: a [null] value takes the
    [enabled] slot when not inverted and the [disabled] slot when inverted;
    an empty value takes the [disabledEmpty] slot when not inverted and the
    [enabledEmpty] slot when inverted; each fails when the slot is absent;
    a value that is not empty is returned as it is, whatever the policy and
    the inversion. *)
Theorem fallback_table (a : Argument) (msg : string) (opts : FallbackOptions) :
  (value a = None -> inverted a = false ->
     fallback a msg opts = slotElseFail msg (enabled opts)) /\
  (value a = None -> inverted a = true ->
     fallback a msg opts = slotElseFail msg (disabled opts)) /\
  (value a = Some "" -> inverted a = false ->
     fallback a msg opts = slotElseFail msg (disabledEmpty opts)) /\
  (value a = Some "" -> inverted a = true ->
     fallback a msg opts = slotElseFail msg (enabledEmpty opts)) /\
  (forall s, value a = Some s -> s <> "" ->
     fallback a msg opts = Return (JS.Str s)) /\
  (forall v, JS.isNullish v = false -> slotElseFail msg (Some v) = Return v) /\
  slotElseFail msg None = Throw (new_ArgumentError msg) /\
  string_ (new_Argument "--x") policyABCD = Return (JS.Str "A") /\
  string_ (new_Argument "--no-x") policyABCD = Return (JS.Str "B") /\
  string_ (new_Argument "--x=") policyABCD = Return (JS.Str "D") /\
  string_ (new_Argument "--no-x=") policyABCD = Return (JS.Str "C") /\
  string_ (new_Argument "--x=val") policyABCD = Return (JS.Str "val") /\
  string_ (new_Argument "--no-x=val") policyABCD = Return (JS.Str "val").
Proof.
  repeat match goal with |- _ /\ _ => split end; try reflexivity.
  - intros Hv Hi. apply fallback_selected. unfold selectedSlot. now rewrite Hv, Hi.
  - intros Hv Hi. apply fallback_selected. unfold selectedSlot. now rewrite Hv, Hi.
  - intros Hv Hi. apply fallback_selected. unfold selectedSlot. now rewrite Hv, Hi.
  - intros Hv Hi. apply fallback_selected. unfold selectedSlot. now rewrite Hv, Hi.
  - intros s Hv Hs. unfold fallback. rewrite Hv.
    now destruct (String.eqb_spec s "").
  - intros v Hv. simpl. now rewrite Hv.
Qed.

(** C10. A slot set to [null] behaves as an absent one: the two policies
    resolve alike for every token, a token whose case selects the [null]
    slot fails with the message, and what fallback resolution returns is
    never [null] (nor [undefined]). *)
Theorem null_slot_is_absent (a : Argument) (msg : string)
    (e d ee de : option JS.primitive) :
  fallback a msg {| enabled := Some JS.Null; disabled := d;
                    enabledEmpty := ee; disabledEmpty := de |}
  = fallback a msg {| enabled := None; disabled := d;
                      enabledEmpty := ee; disabledEmpty := de |} /\
  fallback a msg {| enabled := e; disabled := Some JS.Null;
                    enabledEmpty := ee; disabledEmpty := de |}
  = fallback a msg {| enabled := e; disabled := None;
                      enabledEmpty := ee; disabledEmpty := de |} /\
  fallback a msg {| enabled := e; disabled := d;
                    enabledEmpty := Some JS.Null; disabledEmpty := de |}
  = fallback a msg {| enabled := e; disabled := d;
                      enabledEmpty := None; disabledEmpty := de |} /\
  fallback a msg {| enabled := e; disabled := d;
                    enabledEmpty := ee; disabledEmpty := Some JS.Null |}
  = fallback a msg {| enabled := e; disabled := d;
                      enabledEmpty := ee; disabledEmpty := None |} /\
  (forall opts, selectedSlot a opts = Some (Some JS.Null) ->
     fallback a msg opts = Throw (new_ArgumentError msg)) /\
  (forall opts, selectedSlot a opts = Some None ->
     fallback a msg opts = Throw (new_ArgumentError msg)) /\
  (forall opts v, fallback a msg opts = Return v ->
     v <> JS.Null /\ v <> JS.Undefined).
Proof.
  repeat match goal with |- _ /\ _ => split end;
    try (unfold fallback; cbn [enabled disabled enabledEmpty disabledEmpty property];
         reflexivity).
  - intros opts H. now rewrite (fallback_selected a msg opts _ H).
  - intros opts H. now rewrite (fallback_selected a msg opts _ H).
  - intros opts v H. apply fallback_return_not_nullish in H.
    split; intros ->; discriminate H.
Qed.

End Resolution.

(** ** Typed coercions *)

Section Coercions.

Variable StringToNumber : string -> spec_float.

Lemma contains_middle (pre sub post : string) : contains (pre ++ sub ++ post) sub.
Proof. now exists pre, post. Qed.



Lemma includes_In (l : list string) (s : string) :
  JS.includes l s = true <-> In s l.
Proof.
  unfold JS.includes. rewrite existsb_exists. split.
  - intros (x & Hx & E). apply String.eqb_eq in E. now subst.
  - intros H. exists s. split; [exact H | apply String.eqb_refl].
Qed.

Lemma includes_not_In (l : list string) (s : string) :
  ~ In s l -> JS.includes l s = false.
Proof.
  intros H. destruct (JS.includes l s) eqn:E; [|reflexivity].
  now apply includes_In in E.
Qed.

Lemma number_throw (a : Argument) (opts : FallbackOptions) (e : ArgumentError) :
  number StringToNumber a opts = Throw e -> e = new_ArgumentError (number_error a).
Proof.
  unfold number.
  destruct (fallback a (number_error a) opts) as [v|e'] eqn:E.
  - destruct (JS.isNaN (conversion StringToNumber v)); [|discriminate].
    unfold error. congruence.
  - intros [= <-]. now apply fallback_throw in E.
Qed.

Lemma boolean_throw (a : Argument) (e : ArgumentError) :
  boolean a = Throw e -> e = new_ArgumentError (boolean_error a).
Proof.
  unfold boolean. destruct (value a) as [v|]; [|discriminate].
  destruct (String.eqb v ""); [discriminate|].
  destruct (JS.includes truthy v); [destruct (inverted a); discriminate|].
  destruct (JS.includes falsey v); [destruct (inverted a); discriminate|].
  unfold error. congruence.
Qed.



End Coercions.


(** ** Failures *)

Section Failures.

Variable guardMessage : string.
Variable StringToNumber : string -> spec_float.

Lemma full_error (A : Type) (msg : string) :
  msg <> "" ->
  @Full.error guardMessage A msg
  = Full.Raises (Full.AnArgumentError (new_ArgumentError msg)).
Proof.
  intros H. unfold Full.error. apply String.eqb_neq in H. now rewrite H.
Qed.


Lemma string_error_not_empty (a : Argument) : string_error a <> "".
Proof. discriminate. Qed.

Lemma number_error_not_empty (a : Argument) : number_error a <> "".
Proof. discriminate. Qed.






(** The restricted resolver is the full one on its domain. *)
Lemma full_fallback_lift (a : Argument) (msg : string) (opts : FallbackOptions) :
  msg <> "" ->
  Full.fallback guardMessage a msg (liftOptions opts)
  = liftCompletion Full.Primitive (fallback a msg opts).
Proof.
  intros Hm. unfold Full.fallback, fallback, error.
  rewrite (full_error _ msg Hm).
  destruct (value a) as [v|]; [destruct (String.eqb v "")|];
    try reflexivity; destruct (inverted a); cbn [liftOptions
      Full.enabled Full.disabled Full.enabledEmpty Full.disabledEmpty].
  - now destruct (enabledEmpty opts) as [[]|].
  - now destruct (disabledEmpty opts) as [[]|].
  - now destruct (disabled opts) as [[]|].
  - now destruct (enabled opts) as [[]|].
Qed.

Lemma full_string_lift (a : Argument) (opts : FallbackOptions) :
  Full.string_ guardMessage a (liftOptions opts)
  = liftCompletion Full.Primitive (string_ a opts).
Proof. apply full_fallback_lift, string_error_not_empty. Qed.

Lemma full_number_lift (a : Argument) (opts : FallbackOptions) :
  Full.number guardMessage StringToNumber a (liftOptions opts)
  = liftCompletion (fun n => n) (number StringToNumber a opts).
Proof.
  unfold Full.number, number.
  rewrite (full_fallback_lift a _ opts (number_error_not_empty a)).
  destruct (fallback a (number_error a) opts) as [v|e]; [|reflexivity].
  cbn [liftCompletion]. unfold error.
  rewrite (full_error _ _ (number_error_not_empty a)).
  now destruct (JS.isNaN (conversion StringToNumber v)).
Qed.



End Failures.



(** ** Totality of the classifier *)

Section Totality.

Lemma occurs_append (c : ascii) (a b : string) :
  occurs c (a ++ b) = occurs c a || occurs c b.
Proof.
  induction a as [|d a IH]; simpl; [reflexivity|].
  now rewrite IH, orb_assoc.
Qed.

Lemma firstEquals_value (rest name : string) (v : option string) :
  firstEquals rest name v -> (v = None <-> occurs "=" rest = false).
Proof.
  intros [r Hno | n w Hno].
  - now split.
  - rewrite occurs_append. simpl. rewrite orb_true_r. split; discriminate.
Qed.

Lemma flagToken_arg (raw name : string) (v : option string) :
  arg (flagToken raw name v) = raw.
Proof. unfold flagToken. now destruct (JS.startsWith name "no-"). Qed.

Lemma flagToken_value (raw name : string) (v : option string) :
  value (flagToken raw name v) = v.
Proof. unfold flagToken. now destruct (JS.startsWith name "no-"). Qed.

(** C7. The classifier is total: every raw string has a record, which keeps
    the raw string, is inverted only when it is a flag, is exactly one of
    sentinel, positional and flag, and has a [null] value exactly when it is
    the sentinel or a flag without [=]. The resolver is partial: fallback
    resolution fails when the selected slot holds nothing, [number] fails
    when the conversion gives not-a-number, and [boolean] fails on a value
    outside its two vocabularies. *)
Theorem classifier_total_resolver_partial :
  (forall raw, exists a, new_Argument raw = a /\
     arg a = raw /\
     (inverted a = true -> flag a = true) /\
     ((isSentinel a /\ ~ isPositional a /\ ~ isFlagToken a) \/
      (isPositional a /\ ~ isSentinel a /\ ~ isFlagToken a) \/
      (isFlagToken a /\ ~ isSentinel a /\ ~ isPositional a)) /\
     (value a = None <->
      raw = "--" \/ (flag a = true /\ occurs "=" raw = false))) /\
  (forall a msg opts slot,
     selectedSlot a opts = Some slot -> JS.isNullish (property slot) = true ->
     fallback a msg opts = Throw (new_ArgumentError msg)) /\
  (forall StringToNumber a opts v,
     fallback a (number_error a) opts = Return v ->
     JS.isNaN (conversion StringToNumber v) = true ->
     number StringToNumber a opts = Throw (new_ArgumentError (number_error a))) /\
  (forall a s,
     value a = Some s -> s <> "" -> ~ In s truthy -> ~ In s falsey ->
     boolean a = Throw (new_ArgumentError (boolean_error a))) /\
  string_ (new_Argument "--x") noOptions =
    Throw (new_ArgumentError "Argument --x must have a string value, e.g. --x=string").
Proof.
  split; [|split; [|split; [|split]]].
  - intros raw. exists (new_Argument raw). split; [reflexivity|].
    destruct (String.string_dec raw "--") as [->|Hne].
    { split; [reflexivity|]. split; [discriminate|]. split.
      - left. unfold isSentinel, isPositional, isFlagToken. simpl.
        repeat split; try reflexivity; intros H; try discriminate H.
        destruct H as [_ H]; discriminate H.
      - split; [now left | reflexivity]. }
    destruct (JS.startsWith raw "--") eqn:Hp.
    + destruct (new_Argument_prefixed raw Hne Hp) as (name & v & -> & Hs).
      rewrite flagToken_arg, flagToken_value.
      split; [reflexivity|]. split; [intros _; apply flagToken_flag|]. split.
      * right; right. unfold isSentinel, isPositional, isFlagToken.
        rewrite flagToken_flag. repeat split; intros [H _]; discriminate H.
      * rewrite (firstEquals_value _ _ _ Hs), flagToken_flag.
        assert (Ho : occurs "=" raw = occurs "=" (JS.drop 2 raw))
          by (rewrite (startsWith_flag raw Hp) at 1; reflexivity).
        rewrite Ho.
        split; [intros H; right; now split | intros [H | [_ H]]];
          [now elim Hne | exact H].
    + rewrite (new_Argument_positional raw Hp). simpl.
      split; [reflexivity|]. split; [discriminate|]. split.
      * right; left. unfold isSentinel, isPositional, isFlagToken. simpl.
        repeat split; try reflexivity; intros H; try discriminate H.
        destruct H as [_ H]; discriminate H.
      * split; [discriminate | intros [H | [H _]]];
          [now elim Hne | discriminate H].
  - intros a msg opts slot Hs Hn. rewrite (fallback_selected a msg opts slot Hs).
    destruct slot as [v|]; simpl in *; [now rewrite Hn | reflexivity].
  - intros S2N a opts v Hf Hn. unfold number. now rewrite Hf, Hn.
  - intros a s Hv Hs Ht Hf. unfold boolean. rewrite Hv.
    apply String.eqb_neq in Hs. rewrite Hs.
    now rewrite (includes_not_In _ _ Ht), (includes_not_In _ _ Hf).
  - reflexivity.
Qed.

End Totality.

(** ** The exit code *)

Section ExitCode.

Lemma split_first (s : string) (sep : ascii) :
  exists l ls, JS.split s sep = l :: ls.
Proof.
  destruct s as [|c s]; simpl; [now exists "", []|].
  destruct (Ascii.eqb c sep); [now exists "", (JS.split s sep)|].
  destruct (JS.split s sep) as [|l ls]; [now exists (String c ""), []|].
  now exists (String c l), ls.
Qed.

Lemma firstLine_split (s : string) (sep : ascii) :
  s <> "" -> exists l, firstLine (JS.split s sep) = Some l.
Proof.
  destruct s as [|c s]; [now intros H|intros _]. simpl.
  destruct (Ascii.eqb c sep).
  - destruct (split_first s sep) as (l & ls & ->). now exists l.
  - destruct (JS.split s sep) as [|l ls]; [now exists (String c "")|].
    now exists (String c l).
Qed.

Lemma trimIndentation_returns (help : string) :
  help <> "" -> exists trimmed, trimIndentation help = Some trimmed.
Proof.
  intros H. unfold trimIndentation.
  destruct (firstLine_split help JS.LF H) as (l & ->).
  destruct (JS.matchLeadingWhiteSpace l); eauto.
Qed.

Lemma errorToString_truthy (msg : string) :
  String.eqb (JS.errorToString msg) "" = false.
Proof. unfold JS.errorToString. now destruct (String.eqb msg ""). Qed.

(** With a help text that is not empty, an argument error ends the process
    with code 0 when its message is the help text and with code 22
    otherwise. *)
Lemma exit_argument_error (help : string) (e : ArgumentError) :
  help <> "" -> exitCode e = 22 ->
  (message e = help ->
     exists out, exit help (Some (ThrownArgumentError e)) = Exit out 0) /\
  (message e <> help ->
     exists out, exit help (Some (ThrownArgumentError e)) = Exit out 22).
Proof.
  intros Hhelp H22. unfold exit.
  cbn [option_map thrown_toString thrown_exitCode thrown_message].
  rewrite H22, errorToString_truthy. cbn [Z.eqb Pos.eqb negb orb andb].
  destruct (trimIndentation_returns help Hhelp) as (t & ->).
  split; intros Hm.
  - apply String.eqb_eq in Hm. rewrite Hm. cbn [negb]. eauto.
  - apply String.eqb_neq in Hm. rewrite Hm. cbn [negb]. eauto.
Qed.

Lemma exit_argument_error_witness :
  exists out,
    exit "usage" (Some (ThrownArgumentError (new_ArgumentError "bad"))) = Exit out 22.
Proof.
  apply (exit_argument_error "usage" (new_ArgumentError "bad"));
    [discriminate | reflexivity | discriminate].
Defined.

(** C9. With the empty help text, [exit] does not reach the end of the
    process for an argument error whose message differs from the help text:
    [trimIndentation] reads [lines[1]] of the one empty line, which is
    [undefined], and the call of [match] on it raises a [TypeError] before
    anything is written. *)
Theorem exit_empty_help_escapes :
  exitCode (new_ArgumentError "x") = 22 /\
  message (new_ArgumentError "x") <> "" /\
  trimIndentation "" = None /\
  exit "" (Some (ThrownArgumentError (new_ArgumentError "x"))) = TypeError [] /\
  forall out, exit "" (Some (ThrownArgumentError (new_ArgumentError "x")))
              <> Exit out 22.
Proof.
  repeat split; try reflexivity; discriminate.
Qed.

End ExitCode.


(** ** More on classification *)

Section Records.

Lemma firstEquals_name (rest name : string) (v : option string) :
  firstEquals rest name v -> occurs "=" name = false.
Proof. now intros [r H | n w H]. Qed.

Lemma firstEquals_render (rest name : string) (v : option string) :
  firstEquals rest name v ->
  rest = name ++ match v with
                 | Some w => "=" ++ w
                 | None => ""
                 end.
Proof.
  intros [r H | n w H]; [now rewrite append_empty_r | reflexivity].
Qed.

Lemma occurs_drop (c : ascii) (n : nat) (s : string) :
  occurs c s = false -> occurs c (JS.drop n s) = false.
Proof.
  revert s; induction n as [|n IH]; intros [|d s] H; simpl; try easy.
  simpl in H. apply orb_false_iff in H as [_ H]. now apply IH.
Qed.

Lemma render_flagToken (raw name : string) (v : option string) :
  render (flagToken raw name v) =
  "--" ++ name ++ match v with
                  | Some w => "=" ++ w
                  | None => ""
                  end.
Proof.
  unfold flagToken. destruct (JS.startsWith name "no-") eqn:E; [|reflexivity].
  unfold render; cbn [flag inverted key value].
  rewrite (prefix_split "no-" name E) at 2. reflexivity.
Qed.

(** The key, the value and the two marks of a record hold the whole token:
    written back as two dashes, ["no-"] when inverted, the key, and [=] with
    the value when there is one (or as the value alone when the record is
    not a flag), they give the raw string again. *)
Theorem render_new_Argument (raw : string) : render (new_Argument raw) = raw.
Proof.
  destruct (String.string_dec raw "--") as [->|Hne]; [reflexivity|].
  destruct (JS.startsWith raw "--") eqn:Hp.
  - destruct (new_Argument_prefixed raw Hne Hp) as (name & v & -> & Hs).
    rewrite render_flagToken, <- (firstEquals_render _ _ _ Hs).
    symmetry. now apply startsWith_flag.
  - now rewrite (new_Argument_positional raw Hp).
Qed.

(** The key of a record never holds [=], whatever the raw string. *)
Theorem key_without_equals (raw : string) :
  occurs "=" (key (new_Argument raw)) = false.
Proof.
  destruct (String.string_dec raw "--") as [->|Hne]; [reflexivity|].
  destruct (JS.startsWith raw "--") eqn:Hp.
  - destruct (new_Argument_prefixed raw Hne Hp) as (name & v & -> & Hs).
    apply firstEquals_name in Hs. unfold flagToken.
    destruct (JS.startsWith name "no-"); cbn [key]; [|exact Hs].
    now apply occurs_drop.
  - now rewrite (new_Argument_positional raw Hp).
Qed.

Lemma prefix_no_name (name tail : string) :
  String.prefix "no-" (name ++ String "=" tail) = String.prefix "no-" name.
Proof.
  destruct name as [|c1 [|c2 [|c3 name]]];
    cbn [append]; repeat rewrite prefix_cons.
  - reflexivity.
  - now destruct (Ascii.eqb "n" c1).
  - destruct (Ascii.eqb "n" c1); [|reflexivity].
    now destruct (Ascii.eqb "o" c2).
  - destruct (Ascii.eqb "n" c1); [|reflexivity].
    destruct (Ascii.eqb "o" c2); [|reflexivity].
    destruct (Ascii.eqb "-" c3); [|reflexivity].
    now destruct name.
Qed.

Lemma firstEquals_negation (rest name : string) (v : option string) :
  firstEquals rest name v ->
  JS.startsWith name "no-" = JS.startsWith rest "no-".
Proof.
  intros [r H | n w H]; [reflexivity|].
  unfold JS.startsWith. symmetry. apply (prefix_no_name n w).
Qed.

Lemma prefix_longer (p q s : string) :
  String.prefix p s = false -> String.prefix (p ++ q) s = false.
Proof.
  revert s; induction p as [|c p IH]; intros s H.
  - now destruct s.
  - destruct s as [|d s]; [reflexivity|].
    cbn [append]. rewrite prefix_cons in *.
    destruct (Ascii.eqb c d); [now apply IH | reflexivity].
Qed.

Lemma marks_of_raw_gen (raw : string) :
  flag (new_Argument raw)
  = JS.startsWith raw "--" && negb (String.eqb raw "--") /\
  inverted (new_Argument raw) = JS.startsWith raw "--no-".
Proof.
  destruct (String.eqb_spec raw "--") as [->|Hne]; [now split|].
  destruct (JS.startsWith raw "--") eqn:Hp.
  - destruct (new_Argument_prefixed raw Hne Hp) as (name & v & -> & Hs).
    split; [apply flagToken_flag|].
    rewrite (startsWith_flag raw Hp) at 2.
    change (JS.startsWith ("--" ++ JS.drop 2 raw) "--no-")
      with (JS.startsWith (JS.drop 2 raw) "no-").
    rewrite <- (firstEquals_negation _ _ _ Hs).
    unfold flagToken. now destruct (JS.startsWith name "no-").
  - rewrite (new_Argument_positional raw Hp). split; [reflexivity|].
    symmetry. exact (prefix_longer "--" "no-" raw Hp).
Qed.

(** The two marks read off the raw string: a record is a flag exactly when
    the raw string starts with two dashes and is not ["--"], and it is
    inverted exactly when the raw string starts with ["--no-"]. *)
Theorem marks_of_raw (raw : string) :
  flag (new_Argument raw)
  = JS.startsWith raw "--" && negb (String.eqb raw "--") /\
  inverted (new_Argument raw) = JS.startsWith raw "--no-".
Proof. exact (marks_of_raw_gen raw). Qed.

Lemma unknown_message_gen (raw : string) :
  @unknown unit (new_Argument raw) =
  Throw (new_ArgumentError
           (if JS.startsWith raw "--" && negb (String.eqb raw "--")
            then "Unknown flag: " ++ raw
            else "Unknown argument " ++ raw)).
Proof.
  unfold unknown, error.
  destruct (marks_of_raw_gen raw) as [-> _].
  assert (E : arg (new_Argument raw) = raw).
  { destruct (String.string_dec raw "--") as [->|Hne]; [reflexivity|].
    destruct (JS.startsWith raw "--") eqn:Hp.
    - destruct (new_Argument_prefixed raw Hne Hp) as (name & v & -> & _).
      apply flagToken_arg.
    - now rewrite (new_Argument_positional raw Hp). }
  now rewrite E.
Qed.

(** [unknown] names a flag as a flag and anything else, the sentinel
    included, as an argument. *)
Theorem unknown_message (raw : string) :
  @unknown unit (new_Argument raw) =
  Throw (new_ArgumentError
           (if JS.startsWith raw "--" && negb (String.eqb raw "--")
            then "Unknown flag: " ++ raw
            else "Unknown argument " ++ raw)).
Proof. exact (unknown_message_gen raw). Qed.

End Records.

(** ** The coercions on classified tokens *)

Section CoercionsOnTokens.

Variable StringToNumber : string -> spec_float.

Lemma fallback_own (a : Argument) (msg : string) (opts : FallbackOptions)
    (v : string) :
  value a = Some v -> v <> "" -> fallback a msg opts = Return (JS.Str v).
Proof.
  intros Hv Hne. unfold fallback. rewrite Hv.
  now destruct (String.eqb_spec v "").
Qed.

Lemma number_own (a : Argument) (opts : FallbackOptions) (v : string) :
  value a = Some v -> v <> "" ->
  number StringToNumber a opts =
  if JS.isNaN (StringToNumber v)
  then Throw (new_ArgumentError (number_error a))
  else Return (StringToNumber v).
Proof.
  intros Hv Hne. unfold number.
  rewrite (fallback_own a _ opts v Hv Hne).
  unfold conversion. cbn [JS.isNullish JS.strictEqualsString orb JS.Number].
  apply String.eqb_neq in Hne. now rewrite Hne.
Qed.

(** The value written after the first [=] of a flag, when it is not empty,
    is what [string] returns and what [number] converts, whatever the
    policy: [number] returns the engine's reading of it, or throws when that
    is not-a-number. *)
Theorem valued_flag_coercions (name v : string) (opts : FallbackOptions) :
  occurs "=" name = false -> v <> "" ->
  string_ (new_Argument ("--" ++ name ++ "=" ++ v)) opts = Return (JS.Str v) /\
  number StringToNumber (new_Argument ("--" ++ name ++ "=" ++ v)) opts =
    if JS.isNaN (StringToNumber v)
    then Throw (new_ArgumentError
                  (number_error (new_Argument ("--" ++ name ++ "=" ++ v))))
    else Return (StringToNumber v).
Proof.
  intros Hno Hne.
  assert (Hv : value (new_Argument ("--" ++ name ++ "=" ++ v)) = Some v)
    by (rewrite (new_Argument_valued name v Hno); apply flagToken_value).
  split; [now apply fallback_own | now apply number_own].
Qed.

(** A positional token that is not empty is its own [string] value and the
    text that [number] converts, whatever the policy. The empty token is a
    positional token with the empty value: [string] resolves it through the
    [disabledEmpty] slot and [boolean] takes it as [true]. *)
Theorem positional_coercions (raw : string) (opts : FallbackOptions) :
  JS.startsWith raw "--" = false ->
  (raw <> "" ->
     string_ (new_Argument raw) opts = Return (JS.Str raw) /\
     number StringToNumber (new_Argument raw) opts =
       if JS.isNaN (StringToNumber raw)
       then Throw (new_ArgumentError ("Argument " ++ raw ++
                     " must have a number value, e.g. 123"))
       else Return (StringToNumber raw)) /\
  (raw = "" ->
     string_ (new_Argument raw) opts =
       slotElseFail "Argument  must have a string value, e.g. <string>"
                    (disabledEmpty opts) /\
     boolean (new_Argument raw) = Return true).
Proof.
  intros Hp. split.
  - intros Hne. rewrite (new_Argument_positional raw Hp). split.
    + now apply fallback_own.
    + exact (number_own
               {| arg := raw; key := ""; value := Some raw;
                  flag := false; inverted := false |} opts raw eq_refl Hne).
  - intros ->. split; [|reflexivity].
    apply (fallback_selected (new_Argument "") _ opts (disabledEmpty opts)).
    reflexivity.
Qed.

(** [number] never returns not-a-number. *)
Theorem number_never_NaN (a : Argument) (opts : FallbackOptions)
    (n : spec_float) :
  number StringToNumber a opts = Return n -> JS.isNaN n = false.
Proof.
  unfold number. destruct (fallback a (number_error a) opts) as [v|e];
    [|discriminate].
  destruct (JS.isNaN (conversion StringToNumber v)) eqn:E; [discriminate|].
  now intros [= <-].
Qed.

Lemma fallback_return_any_message (a : Argument) (m1 m2 : string)
    (opts : FallbackOptions) (v : JS.primitive) :
  fallback a m1 opts = Return v -> fallback a m2 opts = Return v.
Proof.
  destruct (selectedSlot a opts) as [slot|] eqn:E.
  - rewrite !(fallback_selected a _ opts slot E).
    destruct slot as [w|]; simpl; [|discriminate].
    now destruct (JS.isNullish w).
  - destruct (fallback_own_value a m1 opts E) as (s & Hv & Hne & ->).
    intros [= <-]. now apply fallback_own.
Qed.

(** [number] succeeds only where [string] does, on the conversion of what
    [string] returns; so where [string] throws, [number] throws. *)
Theorem number_needs_string (a : Argument) (opts : FallbackOptions) :
  (forall n, number StringToNumber a opts = Return n ->
     exists v, string_ a opts = Return v /\ conversion StringToNumber v = n) /\
  (forall e, string_ a opts = Throw e ->
     number StringToNumber a opts = Throw (new_ArgumentError (number_error a))).
Proof.
  split.
  - intros n H. unfold number in H.
    destruct (fallback a (number_error a) opts) as [v|e] eqn:E; [|discriminate].
    exists v. split; [exact (fallback_return_any_message a _ _ opts v E)|].
    destruct (JS.isNaN (conversion StringToNumber v)); [discriminate|].
    now injection H.
  - intros e H. unfold number.
    destruct (fallback a (number_error a) opts) as [v|e'] eqn:E.
    + apply (fallback_return_any_message a _ (string_error a)) in E.
      unfold string_ in H. congruence.
    + apply fallback_throw in E. now subst e'.
Qed.

End CoercionsOnTokens.

Lemma valued_flag_coercions_witness :
  string_ (new_Argument "--port=80") noOptions = Return (JS.Str "80") /\
  number JS.decimalIntegerToNumber (new_Argument "--port=80") noOptions =
    Return (JS.binary64 80 0).
Proof.
  apply (valued_flag_coercions JS.decimalIntegerToNumber "port" "80" noOptions);
    [reflexivity | discriminate].
Defined.

Lemma positional_coercions_witness :
  string_ (new_Argument "file") noOptions = Return (JS.Str "file").
Proof.
  apply (positional_coercions JS.decimalIntegerToNumber "file" noOptions);
    [reflexivity | discriminate].
Defined.

Lemma number_never_NaN_witness :
  JS.isNaN (JS.binary64 80 0) = false.
Proof.
  apply (number_never_NaN JS.decimalIntegerToNumber
           (new_Argument "--port=80") noOptions).
  reflexivity.
Defined.

Section BooleanOnTokens.

Lemma boolean_flips (a a' : Argument) (b : bool) :
  value a' = value a -> inverted a' = negb (inverted a) ->
  boolean a = Return b -> boolean a' = Return (negb b).
Proof.
  unfold boolean. intros -> ->. destruct (value a) as [v|].
  - destruct (String.eqb v ""); [now intros [= <-]|].
    destruct (JS.includes truthy v); [destruct (inverted a); now intros [= <-]|].
    destruct (JS.includes falsey v); [destruct (inverted a); now intros [= <-]|].
    discriminate.
  - now intros [= <-].
Qed.

Lemma firstEquals_no (rest name : string) (v : option string) :
  firstEquals rest name v -> firstEquals ("no-" ++ rest) ("no-" ++ name) v.
Proof.
  intros [r H | n w H].
  - now constructor.
  - exact (AtEquals ("no-" ++ n) w H).
Qed.

(** The negation prefix flips [boolean]: when a flag whose name does not
    start with ["no-"] is read as [b], the same flag with ["no-"] before its
    name is read as the opposite of [b], with or without a value. *)
Theorem boolean_negation (rest name : string) (v : option string) (b : bool) :
  rest <> "" -> firstEquals rest name v -> JS.startsWith name "no-" = false ->
  boolean (new_Argument ("--" ++ rest)) = Return b ->
  boolean (new_Argument ("--no-" ++ rest)) = Return (negb b).
Proof.
  intros Hne Hs Hn. apply boolean_flips.
  - change ("--no-" ++ rest) with ("--" ++ ("no-" ++ rest)).
    rewrite (new_Argument_split ("no-" ++ rest) _ v) by
      (try discriminate; exact (firstEquals_no _ _ _ Hs)).
    rewrite (new_Argument_split rest name v Hne Hs).
    now rewrite !flagToken_value.
  - change ("--no-" ++ rest) with ("--" ++ ("no-" ++ rest)).
    rewrite (new_Argument_split ("no-" ++ rest) _ v) by
      (try discriminate; exact (firstEquals_no _ _ _ Hs)).
    rewrite (new_Argument_split rest name v Hne Hs).
    unfold flagToken. rewrite Hn.
    unfold JS.startsWith. now rewrite prefix_append.
Qed.

Lemma boolean_negation_witness :
  boolean (new_Argument "--no-color=off") = Return (negb false).
Proof.
  apply (boolean_negation "color=off" "color" (Some "off") false).
  - discriminate.
  - exact (AtEquals "color" "off" eq_refl).
  - reflexivity.
  - reflexivity.
Defined.

(** A flag without [=] is read by [boolean] as [true], and as [false] when
    its name starts with ["no-"]; it never throws. *)
Theorem boolean_bare_flag (name : string) :
  name <> "" -> occurs "=" name = false ->
  boolean (new_Argument ("--" ++ name)) = Return (negb (JS.startsWith name "no-")).
Proof.
  intros Hne Hno. rewrite (new_Argument_bare name Hne Hno).
  unfold flagToken, boolean. now destruct (JS.startsWith name "no-").
Qed.

Lemma boolean_bare_flag_witness :
  boolean (new_Argument "--no-color") = Return false.
Proof.
  apply (boolean_bare_flag "no-color"); [discriminate | reflexivity].
Defined.

End BooleanOnTokens.

(** ** [trimIndentation] line by line *)

Section Lines.

Lemma join_cons (l : string) (ls : list string) :
  ls <> [] -> JS.join (l :: ls) NL = l ++ NL ++ JS.join ls NL.
Proof. destruct ls; [now intros H | reflexivity]. Qed.

Lemma join_split (s : string) : JS.join (JS.split s JS.LF) NL = s.
Proof.
  induction s as [|c s IH]; [reflexivity|].
  cbn [JS.split]. destruct (Ascii.eqb_spec c JS.LF) as [->|Hc].
  - destruct (split_first s JS.LF) as (l & ls & E).
    rewrite join_cons by (rewrite E; discriminate).
    now rewrite IH.
  - destruct (split_first s JS.LF) as (l & ls & E). rewrite E in *.
    destruct ls as [|l' ls].
    + cbn in IH |- *. now rewrite IH.
    + rewrite join_cons in IH |- * by discriminate.
      cbn [append]. now rewrite IH.
Qed.

Lemma split_oneLine (l : string) : oneLine l -> JS.split l JS.LF = [l].
Proof.
  unfold oneLine. induction l as [|c l IH]; [reflexivity|]. intros H.
  simpl in H. apply orb_false_iff in H as [Hc Hl].
  cbn [JS.split]. now rewrite Hc, (IH Hl).
Qed.

Lemma split_line_then (l t : string) :
  oneLine l -> JS.split (l ++ NL ++ t) JS.LF = l :: JS.split t JS.LF.
Proof.
  unfold oneLine. induction l as [|c l IH]; intros H.
  - cbn [append NL JS.split]. now rewrite Ascii.eqb_refl.
  - simpl in H. apply orb_false_iff in H as [Hc Hl].
    cbn [append JS.split]. now rewrite Hc, (IH Hl).
Qed.

Lemma split_join (ls : list string) :
  ls <> [] -> Forall oneLine ls -> JS.split (JS.join ls NL) JS.LF = ls.
Proof.
  induction ls as [|l ls IH]; [now intros H|]. intros _ H.
  inversion H as [|x xs Hl Hls]; subst.
  destruct ls as [|l' ls]; [now apply split_oneLine|].
  rewrite join_cons by discriminate.
  rewrite split_line_then by exact Hl.
  f_equal. apply IH; [discriminate | exact Hls].
Qed.

Lemma split_lines (s : string) : Forall oneLine (JS.split s JS.LF).
Proof.
  induction s as [|c s IH]; [now repeat constructor|].
  cbn [JS.split]. destruct (Ascii.eqb c JS.LF) eqn:Hc.
  - constructor; [reflexivity | exact IH].
  - destruct (JS.split s JS.LF) as [|l ls]; [repeat constructor|].
    + unfold oneLine. simpl. now rewrite Hc.
    + inversion IH; subst. constructor; [|assumption].
      unfold oneLine in *. simpl. now rewrite Hc.
Qed.

Lemma replace_oneLine (l pat : string) :
  oneLine l -> oneLine (JS.replace l pat "").
Proof.
  unfold oneLine. induction l as [|c l IH]; intros H.
  - cbn [JS.replace]. destruct (String.prefix pat ""); [|reflexivity].
    cbn [append]. now apply occurs_drop.
  - cbn [JS.replace]. destruct (String.prefix pat (String c l)).
    + cbn [append]. now apply occurs_drop.
    + simpl in H |- *. apply orb_false_iff in H as [Hc Hl].
      now rewrite Hc, (IH Hl).
Qed.

Lemma replace_prefix (ind r : string) : JS.replace (ind ++ r) ind "" = r.
Proof.
  destruct ind as [|c ind]; cbn [append].
  - destruct r; reflexivity.
  - cbn [JS.replace].
    change (String c (ind ++ r)) with (String c ind ++ r).
    rewrite prefix_append. cbn [append]. apply (drop_append (String c ind) r).
Qed.

Lemma trimIndentation_throws_iff_gen (s : string) :
  trimIndentation s = None <-> s = "".
Proof.
  split; [|now intros ->].
  intros H. destruct (String.string_dec s "") as [E|Hne]; [exact E|].
  destruct (trimIndentation_returns s Hne) as (t & Ht). congruence.
Qed.

(** [trimIndentation] throws on the empty string and on no other. *)
Theorem trimIndentation_throws_iff (s : string) :
  trimIndentation s = None <-> s = "".
Proof. exact (trimIndentation_throws_iff_gen s). Qed.

Lemma trimIndentation_lines_gen (s fl : string) :
  firstLine (JS.split s JS.LF) = Some fl ->
  (forall ind, JS.matchLeadingWhiteSpace fl = Some ind ->
     exists t, trimIndentation s = Some t /\
       JS.split t JS.LF = map (fun l => JS.replace l ind "") (JS.split s JS.LF)) /\
  (JS.matchLeadingWhiteSpace fl = None -> trimIndentation s = Some s).
Proof.
  intros Hfl. unfold trimIndentation. rewrite Hfl. split.
  - intros ind ->. eexists. split; [reflexivity|].
    apply split_join.
    + destruct (split_first s JS.LF) as (l & ls & ->). discriminate.
    + apply Forall_forall. intros x Hin.
      apply in_map_iff in Hin as (l & <- & Hl).
      apply replace_oneLine.
      exact (proj1 (Forall_forall _ _) (split_lines s) l Hl).
  - now intros ->.
Qed.

(** With [fl] the first line, or the second when the first is empty:
    when [fl] starts with a run [ind] of white space, the result has the
    lines of the text, in order and as many, each without its first
    occurrence of [ind]; when [fl] starts with none, the text is returned as
    it is. *)
Theorem trimIndentation_lines (s fl : string) :
  firstLine (JS.split s JS.LF) = Some fl ->
  (forall ind, JS.matchLeadingWhiteSpace fl = Some ind ->
     exists t, trimIndentation s = Some t /\
       JS.split t JS.LF = map (fun l => JS.replace l ind "") (JS.split s JS.LF)) /\
  (JS.matchLeadingWhiteSpace fl = None -> trimIndentation s = Some s).
Proof. exact (trimIndentation_lines_gen s fl). Qed.

Lemma trimIndentation_lines_witness :
  (forall ind, JS.matchLeadingWhiteSpace "  a" = Some ind ->
     exists t, trimIndentation (String JS.LF "  a") = Some t /\
       JS.split t JS.LF
       = map (fun l => JS.replace l ind "") (JS.split (String JS.LF "  a") JS.LF)) /\
  (JS.matchLeadingWhiteSpace "  a" = None ->
     trimIndentation (String JS.LF "  a") = Some (String JS.LF "  a")).
Proof.
  apply (trimIndentation_lines (String JS.LF "  a") "  a"). reflexivity.
Defined.

(** Every line that starts with the indentation of the reference line
    comes out without it, at the same place. *)
Theorem trimIndentation_strips (s fl ind t : string) (i : nat) (r : string) :
  firstLine (JS.split s JS.LF) = Some fl ->
  JS.matchLeadingWhiteSpace fl = Some ind ->
  trimIndentation s = Some t ->
  nth_error (JS.split s JS.LF) i = Some (ind ++ r) ->
  nth_error (JS.split t JS.LF) i = Some r.
Proof.
  intros Hfl Hind Ht Hi.
  destruct (trimIndentation_lines_gen s fl Hfl) as [H _].
  destruct (H ind Hind) as (t' & Ht' & Hs).
  assert (E : t' = t) by congruence. subst t'.
  rewrite Hs, nth_error_map, Hi. cbn [option_map].
  now rewrite replace_prefix.
Qed.

Lemma trimIndentation_strips_witness :
  nth_error (JS.split ("a" ++ String JS.LF "b") JS.LF) 1 = Some "b".
Proof.
  apply (trimIndentation_strips ("  a" ++ String JS.LF "  b") "  a" "  "
           ("a" ++ String JS.LF "b") 1 "b"); reflexivity.
Defined.

End Lines.

(** ** More on [exit] *)

Section Endings.

Lemma exit_first_branch (help text : string) (error : option thrown) :
  trimIndentation help = Some text ->
  option_map thrown_toString error = None \/
  option_map thrown_toString error = Some "" ->
  exit help error = Exit [JS.trim text] 0.
Proof.
  intros Ht H. unfold exit. rewrite Ht.
  destruct error as [e|]; cbn [option_map] in *.
  - destruct H as [H|H]; [discriminate|]. injection H as H. rewrite H.
    cbn [String.eqb negb andb orb]. rewrite orb_true_r. reflexivity.
  - reflexivity.
Qed.

(** Without an error, or with one whose [toString] is empty, [exit] never
    ends with another code than 0, whatever exit code the error carries:
    with a help text that is not empty it writes the trimmed help text
    alone and ends with code 0, and with the empty help text the
    [TypeError] of [trimIndentation] escapes before anything is written. *)
Theorem exit_without_error (help : string) :
  (help <> "" ->
     exists text, trimIndentation help = Some text /\
       exit help None = Exit [JS.trim text] 0 /\
       forall msg c,
         exit help (Some (ThrownOther "" msg c)) = Exit [JS.trim text] 0) /\
  (help = "" ->
     exit help None = TypeError [] /\
     forall msg c, exit help (Some (ThrownOther "" msg c)) = TypeError []).
Proof.
  split.
  - intros H. destruct (trimIndentation_returns help H) as (text & Ht).
    exists text. split; [exact Ht|].
    split; [|intros msg c]; apply exit_first_branch; auto.
  - intros ->. split; [reflexivity|]. intros msg c. unfold exit.
    cbn [option_map thrown_toString String.eqb negb].
    rewrite orb_true_r. reflexivity.
Qed.

Lemma exit_other_error_gen (help text msg : string) (c : option Z) :
  text <> "" -> c <> Some 22 ->
  exit help (Some (ThrownOther text msg c)) =
  Exit [text] (match c with
               | Some n => n
               | None => 1
               end).
Proof.
  intros Ht Hc. unfold exit. cbn [option_map thrown_toString thrown_exitCode].
  apply String.eqb_neq in Ht. rewrite Ht. cbn [negb orb].
  destruct c as [n|]; [|reflexivity].
  destruct (Z.eqb_spec n 22) as [->|_]; [now elim Hc | reflexivity].
Qed.

(** An error that is not an argument error, with a text and an exit code
    other than 22 or none, has its text written alone, without the help
    text, and ends the process with its exit code, or with 1 when it has
    none; the help text is not looked at, so the empty one does no harm. *)
Theorem exit_other_error (help text msg : string) (c : option Z) :
  text <> "" -> c <> Some 22 ->
  exit help (Some (ThrownOther text msg c)) =
  Exit [text] (match c with
               | Some n => n
               | None => 1
               end).
Proof. exact (exit_other_error_gen help text msg c). Qed.

Lemma exit_other_error_witness :
  exit "" (Some (ThrownOther "Error: boom" "boom" None)) = Exit ["Error: boom"] 1.
Proof.
  apply (exit_other_error "" "Error: boom" "boom" None); discriminate.
Defined.

Lemma exit_argument_error_output_gen (help text : string) (e : ArgumentError) :
  trimIndentation help = Some text -> exitCode e = 22 ->
  exit help (Some (ThrownArgumentError e)) =
  if String.eqb (message e) help then Exit [JS.trim text] 0
  else Exit [JS.trim text;
             String JS.LF EmptyString ++ JS.errorToString (message e)] 22.
Proof.
  intros Ht H22. unfold exit.
  cbn [option_map thrown_toString thrown_exitCode thrown_message].
  rewrite H22, errorToString_truthy, Ht. cbn [Z.eqb Pos.eqb negb orb andb].
  now destruct (String.eqb (message e) help).
Qed.

(** What [exit] writes for an argument error: the trimmed help text, and
    after it, when the message is not the help text, one more entry made of
    a line feed and the error's [toString]; the codes are 22 and 0. *)
Theorem exit_argument_error_output (help text : string) (e : ArgumentError) :
  trimIndentation help = Some text -> exitCode e = 22 ->
  exit help (Some (ThrownArgumentError e)) =
  if String.eqb (message e) help then Exit [JS.trim text] 0
  else Exit [JS.trim text;
             String JS.LF EmptyString ++ JS.errorToString (message e)] 22.
Proof. exact (exit_argument_error_output_gen help text e). Qed.

Lemma exit_argument_error_output_witness :
  exit "  usage" (Some (ThrownArgumentError (new_ArgumentError "bad"))) =
  Exit ["usage"; String JS.LF "Error: bad"] 22.
Proof.
  apply (exit_argument_error_output "  usage" "usage" (new_ArgumentError "bad"));
    reflexivity.
Defined.

(** [exit] ends with code 22 only for an error that carries exit code 22,
    has a [toString] that is not empty and a message other than the help
    text. *)
Theorem exit_22_only (help : string) (error : option thrown) (out : list string) :
  exit help error = Exit out 22 ->
  exists e, error = Some e /\ thrown_exitCode e = Some 22 /\
            thrown_toString e <> "" /\ thrown_message e <> help.
Proof.
  unfold exit. intros H. destruct error as [e|]; cbn [option_map] in H.
  - exists e.
    destruct (String.eqb_spec (thrown_toString e) "") as [Hs|Hs];
      cbn [negb andb orb] in H.
    + rewrite orb_true_r in H. destruct (trimIndentation help); discriminate H.
    + rewrite orb_false_r in H.
      destruct (thrown_exitCode e) as [c|]; [|discriminate H].
      destruct (c =? 22) eqn:Hc.
      * apply Z.eqb_eq in Hc. subst c.
        destruct (trimIndentation help); [|discriminate H].
        destruct (String.eqb_spec (thrown_message e) help) as [Hm|Hm];
          cbn [negb] in H; [discriminate H|].
        now repeat split.
      * apply Z.eqb_neq in Hc. injection H as _ H. now elim Hc.
  - cbn [negb orb] in H. destruct (trimIndentation help); discriminate H.
Qed.

Lemma exit_22_only_witness :
  exists e, Some (ThrownArgumentError (new_ArgumentError "bad")) = Some e /\
            thrown_exitCode e = Some 22 /\
            thrown_toString e <> "" /\ thrown_message e <> "  usage".
Proof.
  apply (exit_22_only "  usage" _ ["usage"; String JS.LF "Error: bad"]).
  reflexivity.
Defined.

Lemma exit_TypeError_empty_help (help : string) (error : option thrown)
    (out : list string) :
  exit help error = TypeError out -> help = "" /\ out = [].
Proof.
  unfold exit. intros H.
  destruct (trimIndentation help) as [t|] eqn:Ht.
  - destruct (_ || _) in H.
    + destruct error as [e|]; cbn [option_map] in H; [|discriminate].
      destruct (_ && _) in H; discriminate.
    + destruct error as [e|]; cbn [option_map] in H; discriminate.
  - apply trimIndentation_throws_iff_gen in Ht. split; [exact Ht|].
    destruct (_ || _) in H.
    + now injection H.
    + destruct error as [e|]; cbn [option_map] in H; discriminate.
Qed.

(** A [TypeError] escapes from [exit] in two cases only, and in both before
    anything is written: what it is handed has no callable [toString], so
    that [error?.toString()] raises it, with any help text; or the help
    text is empty. *)
Theorem exitOn_TypeError_only (help : string) (error : option handed)
    (out : list string) :
  (exitOn help error = TypeError out ->
     out = [] /\ (error = Some WithoutToString \/ help = "")) /\
  exitOn help (Some WithoutToString) = TypeError [].
Proof.
  split; [|reflexivity].
  destruct error as [[t|]|]; cbn [exitOn].
  - intros H. apply exit_TypeError_empty_help in H as [-> ->]. auto.
  - intros [= <-]. auto.
  - intros H. apply exit_TypeError_empty_help in H as [-> ->]. auto.
Qed.

(** The help request, for every help text. With a text that is not empty,
    [Argument.help] throws the argument error whose message is the text,
    and the catcher made from the same text writes the trimmed text alone
    and ends the process with code 0. With the empty text the guard of
    [Errlop] makes [Argument.help] throw its plain [Error] instead, which
    carries no exit code: the catcher writes that error alone and ends the
    process with code 1. *)
Theorem help_then_catch (guardMessage text : string) :
  (text <> "" ->
     @Full.help guardMessage unit text
     = Full.Raises (Full.AnArgumentError (new_ArgumentError text)) /\
     exists trimmed, trimIndentation text = Some trimmed /\
       catch text (ThrownArgumentError (new_ArgumentError text))
       = Exit [JS.trim trimmed] 0) /\
  (text = "" ->
     @Full.help guardMessage unit text
     = Full.Raises (Full.APlainError guardMessage) /\
     catch text (ThrownOther (JS.errorToString guardMessage) guardMessage None)
     = Exit [JS.errorToString guardMessage] 1).
Proof.
  split.
  - intros H. split; [exact (full_error guardMessage unit text H)|].
    destruct (trimIndentation_returns text H) as (trimmed & Ht).
    exists trimmed. split; [exact Ht|]. unfold catch.
    rewrite (exit_argument_error_output_gen text trimmed
               (new_ArgumentError text) Ht eq_refl).
    cbn [message new_ArgumentError]. now rewrite String.eqb_refl.
  - intros ->. split; [reflexivity|]. unfold catch.
    apply exit_other_error_gen; [|discriminate].
    intros E. pose proof (errorToString_truthy guardMessage) as T.
    rewrite E in T. discriminate T.
Qed.

End Endings.

Lemma exit_without_error_witness :
  exists text, trimIndentation "  usage" = Some text /\
    exit "  usage" None = Exit [JS.trim text] 0 /\
    forall msg c,
      exit "  usage" (Some (ThrownOther "" msg c)) = Exit [JS.trim text] 0.
Proof.
  apply (exit_without_error "  usage"). discriminate.
Defined.

Lemma exitOn_TypeError_only_witness :
  @nil string = [] /\ (Some WithoutToString = Some WithoutToString \/ "  usage" = "").
Proof.
  apply (exitOn_TypeError_only "  usage" (Some WithoutToString) []).
  reflexivity.
Defined.

Lemma help_then_catch_witness :
  catch "" (ThrownOther (JS.errorToString "no input") "no input" None)
  = Exit ["Error: no input"] 1.
Proof.
  apply (help_then_catch "no input" ""). reflexivity.
Defined.

(** ** The example program *)

Section Program.

Variable StringToNumber : string -> spec_float.

Lemma dispatch_unknown (a : Argument) (rest : list string) (opts : Demo.Options) :
  ~ In (key a) ["--"; "help"; "string"; "number"; "boolean"] ->
  Demo.dispatch StringToNumber a rest opts = unknown a.
Proof.
  intros H. unfold Demo.dispatch.
  repeat match goal with
  | |- context [String.eqb (key a) ?k] =>
      destruct (String.eqb_spec (key a) k) as [E|_];
      [exfalso; apply H; rewrite E; simpl; tauto|]
  end.
  reflexivity.
Qed.

Lemma parse_unknown_key_gen (raw : string) (rest : list string)
    (opts : Demo.Options) :
  ~ In (key (new_Argument raw)) ["--"; "help"; "string"; "number"; "boolean"] ->
  Demo.parseFrom StringToNumber (raw :: rest) opts =
  ([], Throw (new_ArgumentError
                (if JS.startsWith raw "--" && negb (String.eqb raw "--")
                 then "Unknown flag: " ++ raw
                 else "Unknown argument " ++ raw))).
Proof.
  intros H. cbn [Demo.parseFrom].
  rewrite (dispatch_unknown _ _ _ H).
  pose proof (unknown_message_gen raw) as E. unfold unknown, error in E |- *.
  now rewrite E.
Qed.

(** A token whose key is none of ["--"], ["help"], ["string"], ["number"]
    and ["boolean"] ends [parse] at once with the error of [unknown]:
    nothing is logged for it and the tokens after it are not looked at. *)
Theorem parse_unknown_key (raw : string) (rest : list string)
    (opts : Demo.Options) :
  ~ In (key (new_Argument raw)) ["--"; "help"; "string"; "number"; "boolean"] ->
  Demo.parseFrom StringToNumber (raw :: rest) opts =
  ([], Throw (new_ArgumentError
                (if JS.startsWith raw "--" && negb (String.eqb raw "--")
                 then "Unknown flag: " ++ raw
                 else "Unknown argument " ++ raw))).
Proof. exact (parse_unknown_key_gen raw rest opts). Qed.

Lemma parse_rejects_positional_gen (raw : string) (rest : list string)
    (opts : Demo.Options) :
  JS.startsWith raw "--" = false ->
  Demo.parseFrom StringToNumber (raw :: rest) opts =
  ([], Throw (new_ArgumentError ("Unknown argument " ++ raw))).
Proof.
  intros Hp. rewrite parse_unknown_key_gen.
  - now rewrite Hp.
  - rewrite (new_Argument_positional raw Hp). cbn [key].
    simpl. intros [H|[H|[H|[H|[H|[]]]]]]; discriminate H.
Qed.

(** Every positional token is such a token: [parse] accepts none. *)
Theorem parse_rejects_positional (raw : string) (rest : list string)
    (opts : Demo.Options) :
  JS.startsWith raw "--" = false ->
  Demo.parseFrom StringToNumber (raw :: rest) opts =
  ([], Throw (new_ArgumentError ("Unknown argument " ++ raw))).
Proof. exact (parse_rejects_positional_gen raw rest opts). Qed.

(** The sentinel does not stop the classification: the token after it is
    shifted and classified as before, so a positional token after ["--"] is
    rejected, once the options have been logged with all that followed the
    sentinel as [vargs]. *)
Theorem parse_after_sentinel (x : string) (rest : list string)
    (opts : Demo.Options) :
  JS.startsWith x "--" = false ->
  Demo.parseFrom StringToNumber ("--" :: x :: rest) opts =
  ([{| Demo.o_string := Demo.o_string opts;
       Demo.o_number := Demo.o_number opts;
       Demo.o_boolean := Demo.o_boolean opts;
       Demo.o_vargs := Some (x :: rest) |}],
   Throw (new_ArgumentError ("Unknown argument " ++ x))).
Proof.
  intros Hp.
  change (Demo.parseFrom StringToNumber ("--" :: x :: rest) opts) with
    (match Demo.dispatch StringToNumber (new_Argument "--") (x :: rest)
             (Demo.shifted opts (x :: rest)) with
     | Throw e => ([], Throw e)
     | Return opts' =>
         let (log, ending) :=
           Demo.parseFrom StringToNumber (x :: rest) opts' in
         (opts' :: log, ending)
     end).
  change (Demo.dispatch StringToNumber (new_Argument "--") (x :: rest)
            (Demo.shifted opts (x :: rest)))
    with (Return (A := Demo.Options)
            {| Demo.o_string := Demo.o_string (Demo.shifted opts (x :: rest));
               Demo.o_number := Demo.o_number (Demo.shifted opts (x :: rest));
               Demo.o_boolean := Demo.o_boolean (Demo.shifted opts (x :: rest));
               Demo.o_vargs := Some (x :: rest) |}).
  cbv iota beta. rewrite (parse_rejects_positional_gen x rest _ Hp).
  unfold Demo.shifted. now destruct (Demo.o_vargs opts).
Qed.

End Program.

Lemma parse_unknown_key_witness :
  Demo.parseFrom JS.decimalIntegerToNumber ["--verbose"; "--help"] Demo.noneSet =
  ([], Throw (new_ArgumentError "Unknown flag: --verbose")).
Proof.
  apply (parse_unknown_key JS.decimalIntegerToNumber "--verbose" ["--help"]
           Demo.noneSet).
  simpl. intros [H|[H|[H|[H|[H|[]]]]]]; discriminate H.
Defined.

Lemma parse_rejects_positional_witness :
  Demo.parseFrom JS.decimalIntegerToNumber ["file"; "--help"] Demo.noneSet =
  ([], Throw (new_ArgumentError "Unknown argument file")).
Proof.
  apply (parse_rejects_positional JS.decimalIntegerToNumber "file" ["--help"]
           Demo.noneSet).
  reflexivity.
Defined.

Lemma parse_after_sentinel_witness :
  Demo.parseFrom JS.decimalIntegerToNumber ["--"; "a"; "b"] Demo.noneSet =
  ([{| Demo.o_string := None; Demo.o_number := None; Demo.o_boolean := None;
       Demo.o_vargs := Some ["a"; "b"] |}],
   Throw (new_ArgumentError "Unknown argument a")).
Proof.
  apply (parse_after_sentinel JS.decimalIntegerToNumber "a" ["b"] Demo.noneSet).
  reflexivity.
Defined.

Section ProgramRuns.

Variable StringToNumber : string -> spec_float.

Lemma dispatch_vargs (a : Argument) (rest : list string)
    (opts opts' : Demo.Options) :
  Demo.dispatch StringToNumber a rest opts = Return opts' ->
  Demo.o_vargs opts' = Some rest \/ Demo.o_vargs opts' = Demo.o_vargs opts.
Proof.
  unfold Demo.dispatch.
  destruct (String.eqb (key a) "--").
  { destruct rest; [discriminate|]. intros [= <-]. now left. }
  destruct (String.eqb (key a) "help"); [discriminate|].
  destruct (String.eqb (key a) "string").
  { destruct (string_ a Demo.stringOptions); [|discriminate].
    intros [= <-]. now right. }
  destruct (String.eqb (key a) "number").
  { destruct (number StringToNumber a Demo.numberOptions); [|discriminate].
    intros [= <-]. now right. }
  destruct (String.eqb (key a) "boolean").
  { destruct (boolean a); [|discriminate]. intros [= <-]. now right. }
  discriminate.
Qed.

Lemma shifted_vargs (opts : Demo.Options) (rest : list string) :
  Demo.o_vargs (Demo.shifted opts rest) = None \/
  Demo.o_vargs (Demo.shifted opts rest) = Some rest.
Proof.
  unfold Demo.shifted. destruct (Demo.o_vargs opts) eqn:E; [now right | now left].
Qed.

Lemma parseFrom_vargs (args : list string) :
  forall (opts : Demo.Options) (log : list Demo.Options) (r : completion unit),
  Demo.parseFrom StringToNumber args opts = (log, r) ->
  forall i o, nth_error log i = Some o ->
    Demo.o_vargs o = None \/ Demo.o_vargs o = Some (skipn (S i) args).
Proof.
  induction args as [|raw rest IH]; intros opts log r H i o Hi.
  - injection H as <- _. now destruct i.
  - cbn [Demo.parseFrom] in H.
    destruct (Demo.dispatch StringToNumber (new_Argument raw) rest
                (Demo.shifted opts rest)) as [opts'|e] eqn:D.
    + destruct (Demo.parseFrom StringToNumber rest opts') as [log' r'] eqn:P.
      injection H as <- _. destruct i as [|i].
      * injection Hi as <-. cbn [skipn].
        destruct (dispatch_vargs _ _ _ _ D) as [E|E]; [now right|].
        rewrite E. apply shifted_vargs.
      * exact (IH opts' log' r' P i o Hi).
    + injection H as <- _. now destruct i.
Qed.

Lemma parseFrom_length (args : list string) :
  forall (opts : Demo.Options) (log : list Demo.Options) (r : completion unit),
  Demo.parseFrom StringToNumber args opts = (log, r) ->
  match r with
  | Return _ => List.length log = List.length args
  | Throw _ => (List.length log < List.length args)%nat
  end.
Proof.
  induction args as [|raw rest IH]; intros opts log r H.
  - now injection H as <- <-.
  - cbn [Demo.parseFrom] in H.
    destruct (Demo.dispatch StringToNumber (new_Argument raw) rest
                (Demo.shifted opts rest)) as [opts'|e].
    + destruct (Demo.parseFrom StringToNumber rest opts') as [log' r'] eqn:P.
      injection H as <- <-. specialize (IH opts' log' r' P).
      destruct r'; cbn [List.length]; lia.
    + injection H as <- <-. cbn [List.length]. lia.
Qed.

(** [vargs] is the array being shifted: in every record that [parse] logs
    it is either unset or exactly the tokens not yet shifted, so it shrinks
    from one log entry to the next. *)
Theorem parse_vargs_alias (args : list string) (log : list Demo.Options)
    (r : completion unit) (i : nat) (o : Demo.Options) :
  Demo.parse StringToNumber args = (log, r) ->
  nth_error log i = Some o ->
  Demo.o_vargs o = None \/ Demo.o_vargs o = Some (skipn (S i) args).
Proof.
  intros H. exact (parseFrom_vargs args Demo.noneSet log r H i o).
Qed.

(** [parse] logs once for each token it accepts: as many records as tokens
    when it returns, fewer when it throws. *)
Theorem parse_log_length (args : list string) (log : list Demo.Options)
    (r : completion unit) :
  Demo.parse StringToNumber args = (log, r) ->
  match r with
  | Return _ => List.length log = List.length args
  | Throw _ => (List.length log < List.length args)%nat
  end.
Proof. exact (parseFrom_length args Demo.noneSet log r). Qed.

(** When [parse] returns, nothing is left in [vargs]: the last record it
    logs has [vargs] unset or empty, whatever followed the sentinel. *)
Theorem parse_returns_without_vargs (args : list string)
    (log : list Demo.Options) (o : Demo.Options) :
  Demo.parse StringToNumber args = (log, Return tt) ->
  nth_error log (List.length args - 1) = Some o ->
  Demo.o_vargs o = None \/ Demo.o_vargs o = Some [].
Proof.
  intros H Hi.
  destruct (parseFrom_vargs args Demo.noneSet log _ H _ o Hi) as [E|E];
    [now left | right].
  rewrite E. f_equal. apply skipn_all2. lia.
Qed.

End ProgramRuns.

Lemma parse_vargs_alias_witness :
  Demo.o_vargs
    {| Demo.o_string := None; Demo.o_number := None;
       Demo.o_boolean := Some true; Demo.o_vargs := Some [] |} = None \/
  Demo.o_vargs
    {| Demo.o_string := None; Demo.o_number := None;
       Demo.o_boolean := Some true; Demo.o_vargs := Some [] |}
  = Some (skipn 2 ["--"; "--boolean"]).
Proof.
  apply (parse_vargs_alias JS.decimalIntegerToNumber ["--"; "--boolean"]
           [ {| Demo.o_string := None; Demo.o_number := None;
                Demo.o_boolean := None; Demo.o_vargs := Some ["--boolean"] |};
             {| Demo.o_string := None; Demo.o_number := None;
                Demo.o_boolean := Some true; Demo.o_vargs := Some [] |} ]
           (Return tt) 1); reflexivity.
Defined.

Lemma parse_log_length_witness :
  List.length
    [ {| Demo.o_string := None; Demo.o_number := None;
         Demo.o_boolean := Some false; Demo.o_vargs := None |} ]
  = List.length ["--no-boolean"].
Proof.
  apply (parse_log_length JS.decimalIntegerToNumber ["--no-boolean"]
           [ {| Demo.o_string := None; Demo.o_number := None;
                Demo.o_boolean := Some false; Demo.o_vargs := None |} ]
           (Return tt)).
  reflexivity.
Defined.

Lemma parse_returns_without_vargs_witness :
  Demo.o_vargs
    {| Demo.o_string := None; Demo.o_number := None;
       Demo.o_boolean := Some true; Demo.o_vargs := Some [] |} = None \/
  Demo.o_vargs
    {| Demo.o_string := None; Demo.o_number := None;
       Demo.o_boolean := Some true; Demo.o_vargs := Some [] |} = Some [].
Proof.
  apply (parse_returns_without_vargs JS.decimalIntegerToNumber
           ["--"; "--boolean"]
           [ {| Demo.o_string := None; Demo.o_number := None;
                Demo.o_boolean := None; Demo.o_vargs := Some ["--boolean"] |};
             {| Demo.o_string := None; Demo.o_number := None;
                Demo.o_boolean := Some true; Demo.o_vargs := Some [] |} ]);
    reflexivity.
Defined.

Section ProgramEnds.

Variable StringToNumber : string -> spec_float.

Lemma help_head : exists tl, Demo.help = String JS.LF tl.
Proof. eexists. vm_compute. reflexivity. Qed.

Lemma not_help (c : ascii) (s : string) : c <> JS.LF -> String c s <> Demo.help.
Proof.
  intros Hc E. destruct help_head as (tl & Htl). rewrite Htl in E.
  injection E as E _. now elim Hc.
Qed.

Lemma dispatch_throw (a : Argument) (rest : list string) (opts : Demo.Options)
    (e : ArgumentError) :
  Demo.dispatch StringToNumber a rest opts = Throw e ->
  (key a = "help" /\ e = new_ArgumentError Demo.help) \/
  (key a <> "help" /\ exitCode e = 22 /\ message e <> Demo.help).
Proof.
  unfold Demo.dispatch.
  destruct (String.eqb_spec (key a) "--") as [K|_].
  { destruct rest; [|discriminate]. intros [= <-]. right.
    rewrite K. repeat split; try discriminate; now apply not_help. }
  destruct (String.eqb_spec (key a) "help") as [K|K].
  { intros [= <-]. now left. }
  intros H. right. split; [exact K|].
  destruct (String.eqb (key a) "string").
  { destruct (string_ a Demo.stringOptions) as [v|e'] eqn:E; [discriminate|].
    injection H as ->. apply fallback_throw in E. subst e.
    split; [reflexivity|]. now apply not_help. }
  destruct (String.eqb (key a) "number").
  { destruct (number StringToNumber a Demo.numberOptions) as [v|e'] eqn:E;
      [discriminate|].
    injection H as ->. apply number_throw in E. subst e.
    split; [reflexivity|]. now apply not_help. }
  destruct (String.eqb (key a) "boolean").
  { destruct (boolean a) as [v|e'] eqn:E; [discriminate|].
    injection H as ->. apply boolean_throw in E. subst e.
    split; [reflexivity|]. now apply not_help. }
  unfold unknown, error in H. injection H as <-.
  split; [reflexivity|]. cbn [message new_ArgumentError].
  destruct (flag a); now apply not_help.
Qed.

Lemma parseFrom_throw (args : list string) :
  forall (opts : Demo.Options) (log : list Demo.Options) (e : ArgumentError),
  Demo.parseFrom StringToNumber args opts = (log, Throw e) ->
  exists raw, nth_error args (List.length log) = Some raw /\
    ((key (new_Argument raw) = "help" /\ e = new_ArgumentError Demo.help) \/
     (key (new_Argument raw) <> "help" /\ exitCode e = 22 /\
      message e <> Demo.help)).
Proof.
  induction args as [|raw rest IH]; intros opts log e H; [discriminate H|].
  cbn [Demo.parseFrom] in H.
  destruct (Demo.dispatch StringToNumber (new_Argument raw) rest
              (Demo.shifted opts rest)) as [opts'|e'] eqn:D.
  - destruct (Demo.parseFrom StringToNumber rest opts') as [log' r'] eqn:P.
    injection H as <- ->. exact (IH opts' log' e P).
  - injection H as <- ->. exists raw. split; [reflexivity|].
    exact (dispatch_throw _ _ _ _ D).
Qed.

(** A run of the program that ends through the catcher ends with code 0
    when the token that [parse] stopped at has the key ["help"], and with
    code 22 for any other token; that token is the one after those logged. *)
Theorem run_exit_codes (args : list string) (log : list Demo.Options)
    (en : ending) :
  Demo.run StringToNumber args = (log, Some en) ->
  exists raw out,
    nth_error args (List.length log) = Some raw /\
    en = Exit out (if String.eqb (key (new_Argument raw)) "help" then 0 else 22).
Proof.
  unfold Demo.run, Demo.parse.
  destruct (Demo.parseFrom StringToNumber args Demo.noneSet) as [log' [u|e]] eqn:P;
    [discriminate|].
  intros [= <- <-].
  destruct (parseFrom_throw args _ _ _ P) as (raw & Hraw & H).
  destruct (trimIndentation_returns Demo.help) as (text & Ht).
  { destruct help_head as (tl & ->). discriminate. }
  exists raw. unfold catch.
  destruct H as [(K & ->) | (K & H22 & Hm)].
  - rewrite (exit_argument_error_output_gen _ text
               (new_ArgumentError Demo.help) Ht eq_refl).
    cbn [message new_ArgumentError]. rewrite String.eqb_refl, K.
    eexists. split; [exact Hraw | reflexivity].
  - rewrite (exit_argument_error_output_gen _ text _ Ht H22).
    apply String.eqb_neq in Hm, K. rewrite Hm, K.
    eexists. split; [exact Hraw | reflexivity].
Qed.

(** A first token with the key ["help"], be it ["--help"], ["--no-help"] or
    ["--help"] with any value, makes the program write the trimmed help text
    alone and end with code 0; the tokens after it are not looked at. *)
Theorem run_help_request (raw text : string) (rest : list string) :
  key (new_Argument raw) = "help" ->
  trimIndentation Demo.help = Some text ->
  Demo.run StringToNumber (raw :: rest) = ([], Some (Exit [JS.trim text] 0)).
Proof.
  intros K Ht. unfold Demo.run, Demo.parse. cbn [Demo.parseFrom].
  unfold Demo.dispatch. rewrite K. cbn [String.eqb Ascii.eqb Bool.eqb].
  unfold Argument_help, help, catch.
  rewrite (exit_argument_error_output_gen _ text
               (new_ArgumentError Demo.help) Ht eq_refl).
  cbn [message new_ArgumentError]. now rewrite String.eqb_refl.
Qed.

End ProgramEnds.

Lemma run_exit_codes_witness :
  exists raw out,
    nth_error ["--boolean"; "--number=abc"; "--help"] 1 = Some raw /\
    exit Demo.help
      (Some (ThrownArgumentError
         (new_ArgumentError
            "Argument --number=abc must have a number value, e.g. --number=123")))
    = Exit out (if String.eqb (key (new_Argument raw)) "help" then 0 else 22).
Proof.
  apply (run_exit_codes JS.decimalIntegerToNumber
           ["--boolean"; "--number=abc"; "--help"]
           [ {| Demo.o_string := None; Demo.o_number := None;
                Demo.o_boolean := Some true; Demo.o_vargs := None |} ]).
  vm_compute. reflexivity.
Defined.

Lemma run_help_request_witness :
  Demo.run JS.decimalIntegerToNumber ["--no-help=x"; "file"] =
  ([], Some (Exit [JS.trim (match trimIndentation Demo.help with
                            | Some t => t
                            | None => ""
                            end)] 0)).
Proof.
  apply (run_help_request JS.decimalIntegerToNumber "--no-help=x" _ ["file"]);
    [reflexivity | vm_compute; reflexivity].
Defined.
